(** * WebRTC signaling server and WebRTC-to-RTMP bridge

    A shallow embedding of [src/bridge/WebRTCToRTMPBridge.js] (module
    [Bridge]) and of the Socket.IO handlers of [src/server.js], in the
    version that mounts the bridge (module [Signaling]), followed by the
    properties established about them.

    Conventions of the embedding:
    - a JavaScript [Map] whose iteration order is never observed is a
      [gmap]; the [users] map, which is searched in insertion order, is
      an association list with the insertion semantics of [Map];
    - native objects (peer connections, child processes, tracks) are
      numbered handles; what the code does to them is appended to a
      trace of actions, in program order;
    - behaviour the code cannot control (does a native call throw, does
      the module import succeed) is read from an [Engine] record;
    - console output is not modelled. *)

From Stdlib Require Import ZArith Lia.
From stdpp Require Import base option list gmap strings.

Open Scope string_scope.
Open Scope list_scope.
Open Scope nat_scope.

(* ===================================================================== *)
(** * The bridge: [WebRTCToRTMPBridge.js]                                 *)
(* ===================================================================== *)

Module Bridge.

(** ** Data *)

Inductive Signal := SIGTERM | SIGKILL.

Inductive TrackKind := KindAudio | KindVideo | KindOther.

(** A track object handed over by the native engine ([event.track]). *)
Record Track := { track_id : nat; track_kind : TrackKind }.

Record SessionDescription := { sd_type : string; sd_sdp : string }.

Record IceCandidate := {
  candidate : string;
  sdpMLineIndex : option nat;
  sdpMid : option string }.

Inductive ConnectionState :=
  | CsNew | CsConnecting | CsConnected | CsDisconnected | CsFailed | CsClosed.

Inductive IceGatheringState := GatherNew | Gathering | GatherComplete.

(** The object stored in [activeStreams] by [handleOffer].  [pc] and
    [ffmpeg] and the two tracks are handles (or [null]); [iceCandidates]
    is a reference to the array that the [onicecandidate] closure of peer
    connection number [iceCandidates] keeps pushing to. *)
Record StreamInfo := {
  pc : option nat;
  streamKey : string;
  iceCandidates : nat;
  answer : SessionDescription;
  ffmpeg : option nat;
  audioTrack : option nat;
  videoTrack : option nat;
  sdpCreated : bool }.

(** A peer connection created by [handleOffer], with what its closures
    captured: the [streamId], the [iceCandidates] array and, once
    [setupMediaProcessing] has installed [pc.ontrack], the child process. *)
Record PeerConnection := {
  pc_streamId : string;
  pc_iceCandidates : list IceCandidate;
  pc_ontrack : option nat;
  pc_connectionState : ConnectionState }.

(** What the code does to the outside world and to its registry. *)
Inductive Action :=
  | ANewPeerConnection (p : nat)
  | ASpawn (f : nat) (rtmpUrl : string)
  | ACreateSDPForFFmpeg (streamId : string) (p f : nat)
  | ARegister (streamId : string)
  | AUnregister (streamId : string)
  | APcClose (p : nat)
  | AKill (f : nat) (sig : Signal)
  | ASetTimeout (ms : N) (f : nat)
  | ATrackStop (t : nat)
  | AAddIceCandidate (p : nat) (c : IceCandidate)
  | AEmit (event : string) (streamId : string).

Global Instance Signal_eq_dec : EqDecision Signal.
Proof. solve_decision. Defined.
Global Instance IceCandidate_eq_dec : EqDecision IceCandidate.
Proof. solve_decision. Defined.
Global Instance Action_eq_dec : EqDecision Action.
Proof. solve_decision. Defined.

(** Outcome of [ChildProcess.kill]: the signal was sent ([killed]
    becomes true), it could not be sent, or the call threw. *)
Inductive KillOutcome := KillSent | KillNotSent | KillThrows.

(** The environment. *)
Record Engine := {
  import_wrtc : bool;
  construct_ok : bool;
  setRemoteDescription_ok : SessionDescription -> bool;
  createAnswer : SessionDescription -> option SessionDescription;
  setLocalDescription_ok : SessionDescription -> bool;
  gathering_after_answer : IceGatheringState;
  spawn_throws : bool;
  close_throws : nat -> bool;
  kill_outcome : nat -> Signal -> KillOutcome;
  addIceCandidate_ok : nat -> IceCandidate -> bool }.

(** The bridge singleton together with the module-level [wrtcAvailable],
    the native objects created so far (peer connections with their
    closures, the [streamId] captured by the listeners of each child
    process, the [onended] handler of each track, the escalation timers
    still pending) and the trace. *)
Record State := {
  activeStreams : gmap string StreamInfo;
  this_wrtcAvailable : bool;
  wrtcAvailable : bool;
  muxRtmpUrl : string;
  pcs : list PeerConnection;
  procs : list string;
  onended : gmap nat string;
  timers : list (option nat);
  trace : list Action }.

Definition with_activeStreams (m : gmap string StreamInfo) (st : State) : State :=
  {| activeStreams := m; this_wrtcAvailable := this_wrtcAvailable st;
     wrtcAvailable := wrtcAvailable st; muxRtmpUrl := muxRtmpUrl st;
     pcs := pcs st; procs := procs st; onended := onended st;
     timers := timers st; trace := trace st |}.

Definition with_wrtc (this_av av : bool) (st : State) : State :=
  {| activeStreams := activeStreams st; this_wrtcAvailable := this_av;
     wrtcAvailable := av; muxRtmpUrl := muxRtmpUrl st;
     pcs := pcs st; procs := procs st; onended := onended st;
     timers := timers st; trace := trace st |}.

Definition with_pcs (l : list PeerConnection) (st : State) : State :=
  {| activeStreams := activeStreams st; this_wrtcAvailable := this_wrtcAvailable st;
     wrtcAvailable := wrtcAvailable st; muxRtmpUrl := muxRtmpUrl st;
     pcs := l; procs := procs st; onended := onended st;
     timers := timers st; trace := trace st |}.

Definition with_procs (l : list string) (st : State) : State :=
  {| activeStreams := activeStreams st; this_wrtcAvailable := this_wrtcAvailable st;
     wrtcAvailable := wrtcAvailable st; muxRtmpUrl := muxRtmpUrl st;
     pcs := pcs st; procs := l; onended := onended st;
     timers := timers st; trace := trace st |}.

Definition with_onended (m : gmap nat string) (st : State) : State :=
  {| activeStreams := activeStreams st; this_wrtcAvailable := this_wrtcAvailable st;
     wrtcAvailable := wrtcAvailable st; muxRtmpUrl := muxRtmpUrl st;
     pcs := pcs st; procs := procs st; onended := m;
     timers := timers st; trace := trace st |}.

Definition with_timers (l : list (option nat)) (st : State) : State :=
  {| activeStreams := activeStreams st; this_wrtcAvailable := this_wrtcAvailable st;
     wrtcAvailable := wrtcAvailable st; muxRtmpUrl := muxRtmpUrl st;
     pcs := pcs st; procs := procs st; onended := onended st;
     timers := l; trace := trace st |}.

(** Append to the trace. *)
Definition act (a : list Action) (st : State) : State :=
  {| activeStreams := activeStreams st; this_wrtcAvailable := this_wrtcAvailable st;
     wrtcAvailable := wrtcAvailable st; muxRtmpUrl := muxRtmpUrl st;
     pcs := pcs st; procs := procs st; onended := onended st;
     timers := timers st; trace := trace st ++ a |}.

(** The state right after module initialisation: [loadWrtc()] has been
    started but not awaited, so the constructor copies [false]. *)
Definition initial (url : string) : State :=
  {| activeStreams := ∅; this_wrtcAvailable := false; wrtcAvailable := false;
     muxRtmpUrl := url; pcs := []; procs := []; onended := ∅;
     timers := []; trace := [] |}.

Definition default_muxRtmpUrl : string := "rtmp://global-live.mux.com:5222/app".

(** [ChildProcess.killed], read off the trace: some signal was sent. *)
Definition killed (E : Engine) (tr : list Action) (f : nat) : bool :=
  existsb (fun a => match a with
                    | AKill f' sig =>
                        Nat.eqb f f' &&
                        match kill_outcome E f' sig with KillSent => true | _ => false end
                    | _ => false
                    end) tr.

(** Has [close()] been called on the peer connection, successfully. *)
Definition closed (E : Engine) (tr : list Action) (p : nat) : bool :=
  existsb (fun a => match a with
                    | APcClose p' => Nat.eqb p p' && negb (close_throws E p')
                    | _ => false
                    end) tr.

Section WithEngine.
Context (E : Engine).

(** ** [cleanupStream(streamId)] *)

Definition kill_with_escalation (f : nat) (st : State) : State :=
  match kill_outcome E f SIGTERM with
  | KillThrows => act [AKill f SIGTERM] st
  | _ => with_timers (timers st ++ [Some f])
           (act [AKill f SIGTERM; ASetTimeout 5000%N f] st)
  end.

(** Each of the four resource operations sits in its own [try]/[catch]
    that only logs, so a throwing [close], [kill] or [stop] does not
    change what follows (a throwing [kill] skips its timer). *)
Definition cleanupStream (st : State) (streamId : string) : State :=
  match activeStreams st !! streamId with
  | None => st
  | Some streamInfo =>
      let st := match pc streamInfo with
                | Some p => act [APcClose p] st
                | None => st
                end in
      let st := match ffmpeg streamInfo with
                | Some f => kill_with_escalation f st
                | None => st
                end in
      let st := match audioTrack streamInfo with
                | Some t => act [ATrackStop t] st
                | None => st
                end in
      let st := match videoTrack streamInfo with
                | Some t => act [ATrackStop t] st
                | None => st
                end in
      let st := act [AUnregister streamId]
                  (with_activeStreams (delete streamId (activeStreams st)) st) in
      act [AEmit "stream-cleaned" streamId] st
  end.

(** The body of the escalation timer set by [cleanupStream]; the closure
    reads [streamInfo.ffmpeg], which is the process it was set for. *)
Definition escalate (st : State) (f : nat) : State :=
  if killed E (trace st) f then st else act [AKill f SIGKILL] st.

(** ** [handleIceCandidate(streamId, candidate)] *)

Definition handleIceCandidate (st : State) (streamId : string) (c : IceCandidate)
  : bool * State :=
  match activeStreams st !! streamId with
  | None => (false, st)
  | Some streamInfo =>
      match pc streamInfo with
      | None => (false, st)
      | Some p =>
          if negb (this_wrtcAvailable st) then (false, st)
          else if addIceCandidate_ok E p c
               then (true, act [AAddIceCandidate p c] st)
               else (false, st)
      end
  end.

(** ** [getIceCandidates], [getActiveStreamCount], [getStreamInfo] *)

Definition getIceCandidates (st : State) (streamId : string) : list IceCandidate :=
  match activeStreams st !! streamId with
  | None => []
  | Some streamInfo =>
      match pcs st !! iceCandidates streamInfo with
      | Some p => pc_iceCandidates p
      | None => []
      end
  end.

Definition getActiveStreamCount (st : State) : nat := size (activeStreams st).

Record StreamStatus := {
  status_streamId : string;
  status_streamKey : string;
  status_connectionState : option ConnectionState;
  status_hasAudio : bool;
  status_hasVideo : bool;
  status_ffmpegRunning : option bool;
  status_wrtcAvailable : bool }.

(** [null] is [None]; ['unknown'] is [None] in [status_connectionState]
    ([iceConnectionState] is read in the same way and left out); a
    [null] [ffmpeg] makes [ffmpegRunning] [null]. *)
Definition getStreamInfo (st : State) (streamId : string) : option StreamStatus :=
  match activeStreams st !! streamId with
  | None => None
  | Some streamInfo =>
      Some {| status_streamId := streamId;
              status_streamKey := streamKey streamInfo;
              status_connectionState :=
                p ← pc streamInfo; pc_connectionState <$> (pcs st !! p);
              status_hasAudio := bool_decide (is_Some (audioTrack streamInfo));
              status_hasVideo := bool_decide (is_Some (videoTrack streamInfo));
              status_ffmpegRunning :=
                (fun f => negb (killed E (trace st) f)) <$> ffmpeg streamInfo;
              status_wrtcAvailable := this_wrtcAvailable st |}
  end.

(** ** [waitForIceGathering(pc, timeout)]

    What the event loop delivers while [handleOffer] is suspended: time
    passing, [icegatheringstatechange] events (carrying the new
    [pc.iceGatheringState]) and [icecandidate] events. *)

Inductive LoopEvent :=
  | Elapse (ms : N)
  | IceGatheringStateChange (s : IceGatheringState)
  | IceCandidateEvent (c : option IceCandidate).

(** The promise after the listener and the timer are installed:
    [remaining] is what is left on the timer, [elapsed] the time since the
    call, [seen] the events delivered so far.  The result is the time at
    which the promise resolves together with the events delivered before
    that; [None] when the schedule ends with the promise still pending. *)
Fixpoint await_gathering (remaining elapsed : N) (seen evs : list LoopEvent)
  : option (N * list LoopEvent) :=
  match evs with
  | [] => None
  | Elapse d :: evs' =>
      if (remaining <=? d)%N then Some ((elapsed + remaining)%N, seen)
      else await_gathering (remaining - d)%N (elapsed + d)%N seen evs'
  | IceGatheringStateChange GatherComplete :: _ =>
      Some (elapsed, seen ++ [IceGatheringStateChange GatherComplete])
  | e :: evs' => await_gathering remaining elapsed (seen ++ [e]) evs'
  end.

Definition waitForIceGathering (iceGatheringState : IceGatheringState)
    (timeout : N) (evs : list LoopEvent) : option (N * list LoopEvent) :=
  match iceGatheringState with
  | GatherComplete => Some (0%N, [])
  | _ => await_gathering timeout 0%N [] evs
  end.

(** [pc.onicecandidate]: push the candidate, if there is one. *)
Definition onicecandidate (arr : list IceCandidate) (e : LoopEvent) : list IceCandidate :=
  match e with
  | IceCandidateEvent (Some c) => arr ++ [c]
  | _ => arr
  end.

(** ** [loadWrtc()], [setupMediaProcessing], [handleOffer] *)

Definition loadWrtc (st : State) : State :=
  with_wrtc (this_wrtcAvailable st) (import_wrtc E) st.

Definition set_ffmpeg (f : option nat) (s : StreamInfo) : StreamInfo :=
  {| pc := pc s; streamKey := streamKey s; iceCandidates := iceCandidates s;
     answer := answer s; ffmpeg := f; audioTrack := audioTrack s;
     videoTrack := videoTrack s; sdpCreated := sdpCreated s |}.

Definition set_audioTrack (t : option nat) (s : StreamInfo) : StreamInfo :=
  {| pc := pc s; streamKey := streamKey s; iceCandidates := iceCandidates s;
     answer := answer s; ffmpeg := ffmpeg s; audioTrack := t;
     videoTrack := videoTrack s; sdpCreated := sdpCreated s |}.

Definition set_videoTrack (t : option nat) (s : StreamInfo) : StreamInfo :=
  {| pc := pc s; streamKey := streamKey s; iceCandidates := iceCandidates s;
     answer := answer s; ffmpeg := ffmpeg s; audioTrack := audioTrack s;
     videoTrack := t; sdpCreated := sdpCreated s |}.

Definition set_sdpCreated (b : bool) (s : StreamInfo) : StreamInfo :=
  {| pc := pc s; streamKey := streamKey s; iceCandidates := iceCandidates s;
     answer := answer s; ffmpeg := ffmpeg s; audioTrack := audioTrack s;
     videoTrack := videoTrack s; sdpCreated := b |}.

Definition set_pc_ontrack (f : option nat) (p : PeerConnection) : PeerConnection :=
  {| pc_streamId := pc_streamId p; pc_iceCandidates := pc_iceCandidates p;
     pc_ontrack := f; pc_connectionState := pc_connectionState p |}.

Definition set_pc_iceCandidates (l : list IceCandidate) (p : PeerConnection)
  : PeerConnection :=
  {| pc_streamId := pc_streamId p; pc_iceCandidates := l;
     pc_ontrack := pc_ontrack p; pc_connectionState := pc_connectionState p |}.

Definition set_pc_connectionState (s : ConnectionState) (p : PeerConnection)
  : PeerConnection :=
  {| pc_streamId := pc_streamId p; pc_iceCandidates := pc_iceCandidates p;
     pc_ontrack := pc_ontrack p; pc_connectionState := s |}.

(** Spawns the child process at once, installs its listeners and
    [pc.ontrack], and records the process on the session *if one is
    already in the map*.  [None]: [spawn] threw. *)
Definition setupMediaProcessing (st : State) (p : nat) (streamId streamKey : string)
  : option State :=
  if spawn_throws E then None
  else
    let rtmpUrl := String.append (muxRtmpUrl st) (String.append "/" streamKey) in
    let ffmpegProcess := length (procs st) in
    let st := act [ASpawn ffmpegProcess rtmpUrl]
                (with_procs (procs st ++ [streamId]) st) in
    let st := with_pcs (alter (set_pc_ontrack (Some ffmpegProcess)) p (pcs st)) st in
    Some match activeStreams st !! streamId with
         | Some streamInfo =>
             with_activeStreams
               (<[streamId := set_ffmpeg (Some ffmpegProcess) streamInfo]>
                  (activeStreams st)) st
         | None => st
         end.

(** How a call of [handleOffer] ends.  For an exception that comes out
    of a native call, [message] is the name of that call. *)
Inductive Outcome :=
  | Returned (answer : SessionDescription) (iceCandidates : list IceCandidate)
  | Threw (message : string).

Definition not_available : string :=
  "WebRTC (wrtc) module not available. Cannot process WebRTC connections. Install wrtc package or run on Linux/Docker.".

(** [handleOffer], run to completion against the schedule [evs] of what
    happens during the ICE wait.  [None]: the schedule ends while the
    call is still suspended in [waitForIceGathering].  The native calls
    awaited before the wait either succeed or fail, as the engine says;
    candidates reported while they are awaited are not modelled, and no
    other bridge code runs while the call is suspended. *)
Definition handleOffer (st : State) (streamId streamKey : string)
    (offer : SessionDescription) (evs : list LoopEvent) : option (Outcome * State) :=
  let st := if this_wrtcAvailable st then st
            else let st := loadWrtc st in
                 with_wrtc (wrtcAvailable st) (wrtcAvailable st) st in
  if negb (this_wrtcAvailable st) then Some (Threw not_available, st)
  else if negb (construct_ok E) then Some (Threw "RTCPeerConnection", st)
  else
    let p := length (pcs st) in
    let st := act [ANewPeerConnection p]
                (with_pcs (pcs st ++ [{| pc_streamId := streamId;
                                         pc_iceCandidates := [];
                                         pc_ontrack := None;
                                         pc_connectionState := CsNew |}]) st) in
    if negb (setRemoteDescription_ok E offer)
    then Some (Threw "setRemoteDescription", st)
    else match createAnswer E offer with
    | None => Some (Threw "createAnswer", st)
    | Some answer =>
      if negb (setLocalDescription_ok E answer)
      then Some (Threw "setLocalDescription", st)
      else match waitForIceGathering (gathering_after_answer E) 5000%N evs with
      | None => None
      | Some (_, seen) =>
        let gathered := fold_left onicecandidate seen [] in
        let st := with_pcs (alter (set_pc_iceCandidates gathered) p (pcs st)) st in
        match setupMediaProcessing st p streamId streamKey with
        | None => Some (Threw "spawn", st)
        | Some st =>
          let st := act [ARegister streamId]
                      (with_activeStreams
                         (<[streamId := {| pc := Some p;
                                           streamKey := streamKey;
                                           iceCandidates := p;
                                           answer := answer;
                                           ffmpeg := None;
                                           audioTrack := None;
                                           videoTrack := None;
                                           sdpCreated := false |}]>
                            (activeStreams st)) st) in
          Some (Returned answer gathered, st)
        end
      end
    end.

(** ** The callbacks installed by [handleOffer] and [setupMediaProcessing] *)

(** [pc.onconnectionstatechange], for a connection whose closure holds
    [streamId] and whose [connectionState] is now [s]. *)
Definition onconnectionstatechange (st : State) (streamId : string)
    (s : ConnectionState) : State :=
  match s with
  | CsConnected => act [AEmit "stream-connected" streamId] st
  | CsFailed | CsDisconnected | CsClosed => cleanupStream st streamId
  | _ => st
  end.

(** [ffmpegProcess.on('close', code)]; [None] is a [null] code. *)
Definition ffmpeg_on_close (st : State) (streamId : string) (code : option Z) : State :=
  match code with
  | Some c => if (c =? 0)%Z then st else cleanupStream st streamId
  | None => st
  end.

(** [ffmpegProcess.on('error', error)]. *)
Definition ffmpeg_on_error (st : State) (streamId : string) : State :=
  cleanupStream st streamId.

(** [createSDPForFFmpeg]: beyond console output it does nothing; the
    call itself is what the trace records. *)
Definition createSDPForFFmpeg (st : State) (streamId : string) (p ffmpegProcess : nat)
  : State :=
  act [ACreateSDPForFFmpeg streamId p ffmpegProcess] st.

(** [pc.ontrack], for the closure holding [streamId], [pc = p] and
    [ffmpegProcess]. *)
Definition ontrack (st : State) (streamId : string) (p ffmpegProcess : nat)
    (track : Track) : State :=
  match activeStreams st !! streamId with
  | None => st
  | Some streamInfo =>
      let streamInfo :=
        match track_kind track with
        | KindAudio => set_audioTrack (Some (track_id track)) streamInfo
        | KindVideo => set_videoTrack (Some (track_id track)) streamInfo
        | KindOther => streamInfo
        end in
      let '(streamInfo, st) :=
        match audioTrack streamInfo, videoTrack streamInfo, sdpCreated streamInfo with
        | Some _, Some _, false =>
            (set_sdpCreated true streamInfo,
             createSDPForFFmpeg st streamId p ffmpegProcess)
        | _, _, _ => (streamInfo, st)
        end in
      let streamInfo := set_ffmpeg (Some ffmpegProcess) streamInfo in
      with_onended (<[track_id track := streamId]> (onended st))
        (with_activeStreams (<[streamId := streamInfo]> (activeStreams st)) st)
  end.

(** ** The bridge as a transition system

    Everything that can make bridge code run: the three entry points
    called by the HTTP layer, and the callbacks fired by the native
    engine, the child processes and the timers. *)

Inductive Event :=
  | CallHandleOffer (streamId streamKey : string) (offer : SessionDescription)
      (evs : list LoopEvent)
  | CallHandleIceCandidate (streamId : string) (c : IceCandidate)
  | CallCleanupStream (streamId : string)
  | OnIceCandidate (p : nat) (c : option IceCandidate)
  | OnConnectionStateChange (p : nat) (s : ConnectionState)
  | OnTrack (p : nat) (track : Track)
  | OnTrackEnded (t : nat)
  | OnFfmpegClose (f : nat) (code : option Z)
  | OnFfmpegError (f : nat)
  | OnTimer (i : nat).

(** One event.  A callback of an object that does not exist, or that has
    no handler installed, runs no bridge code.  [None]: a [handleOffer]
    whose schedule is too short to see it return. *)
Definition step (st : State) (ev : Event) : option State :=
  match ev with
  | CallHandleOffer streamId streamKey offer evs =>
      snd <$> handleOffer st streamId streamKey offer evs
  | CallHandleIceCandidate streamId c => Some (snd (handleIceCandidate st streamId c))
  | CallCleanupStream streamId => Some (cleanupStream st streamId)
  | OnIceCandidate p c =>
      Some match pcs st !! p with
           | Some o =>
               with_pcs (<[p := set_pc_iceCandidates
                                  (onicecandidate (pc_iceCandidates o) (IceCandidateEvent c))
                                  o]> (pcs st)) st
           | None => st
           end
  | OnConnectionStateChange p s =>
      Some match pcs st !! p with
           | Some o =>
               onconnectionstatechange
                 (with_pcs (<[p := set_pc_connectionState s o]> (pcs st)) st)
                 (pc_streamId o) s
           | None => st
           end
  | OnTrack p track =>
      Some match pcs st !! p with
           | Some o =>
               match pc_ontrack o with
               | Some f => ontrack st (pc_streamId o) p f track
               | None => st
               end
           | None => st
           end
  | OnTrackEnded t =>
      Some match onended st !! t with
           | Some streamId => cleanupStream st streamId
           | None => st
           end
  | OnFfmpegClose f code =>
      Some match procs st !! f with
           | Some streamId => ffmpeg_on_close st streamId code
           | None => st
           end
  | OnFfmpegError f =>
      Some match procs st !! f with
           | Some streamId => ffmpeg_on_error st streamId
           | None => st
           end
  | OnTimer i =>
      Some match timers st !! i with
           | Some (Some f) => escalate (with_timers (<[i := None]> (timers st)) st) f
           | _ => st
           end
  end.

Fixpoint run (st : State) (evs : list Event) : option State :=
  match evs with
  | [] => Some st
  | ev :: evs' => match step st ev with
                  | Some st' => run st' evs'
                  | None => None
                  end
  end.

End WithEngine.

(** An engine on which every native call succeeds. *)
Definition engine_ok : Engine :=
  {| import_wrtc := true;
     construct_ok := true;
     setRemoteDescription_ok := fun _ => true;
     createAnswer := fun offer => Some {| sd_type := "answer"; sd_sdp := sd_sdp offer |};
     setLocalDescription_ok := fun _ => true;
     gathering_after_answer := Gathering;
     spawn_throws := false;
     close_throws := fun _ => false;
     kill_outcome := fun _ _ => KillSent;
     addIceCandidate_ok := fun _ _ => true |}.

(** An engine without the [wrtc] module. *)
Definition engine_no_wrtc : Engine :=
  {| import_wrtc := false;
     construct_ok := true;
     setRemoteDescription_ok := fun _ => true;
     createAnswer := fun offer => Some {| sd_type := "answer"; sd_sdp := sd_sdp offer |};
     setLocalDescription_ok := fun _ => true;
     gathering_after_answer := Gathering;
     spawn_throws := false;
     close_throws := fun _ => false;
     kill_outcome := fun _ _ => KillSent;
     addIceCandidate_ok := fun _ _ => true |}.

(** ** Vocabulary of the properties *)

(** The resource operations of one teardown of the session [info], in
    the order of the four guarded blocks of [cleanupStream]. *)
Definition release (E : Engine) (info : StreamInfo) : list Action :=
  match pc info with Some p => [APcClose p] | None => [] end ++
  match ffmpeg info with
  | Some f => match kill_outcome E f SIGTERM with
              | KillThrows => [AKill f SIGTERM]
              | _ => [AKill f SIGTERM; ASetTimeout 5000%N f]
              end
  | None => []
  end ++
  match audioTrack info with Some t => [ATrackStop t] | None => [] end ++
  match videoTrack info with Some t => [ATrackStop t] | None => [] end.

(** Registry actions, as opposed to operations on resources. *)
Definition is_registry_action (a : Action) : bool :=
  match a with
  | ARegister _ | AUnregister _ => true
  | _ => false
  end.

Definition is_create_sdp (streamId : string) (a : Action) : bool :=
  match a with
  | ACreateSDPForFFmpeg s _ _ => bool_decide (s = streamId)
  | _ => false
  end.

Definition is_register (streamId : string) (a : Action) : bool :=
  match a with
  | ARegister s => bool_decide (s = streamId)
  | _ => false
  end.

Definition is_spawn (a : Action) : bool :=
  match a with
  | ASpawn _ _ => true
  | _ => false
  end.

(** How often [createSDPForFFmpeg] was called for [streamId], and how
    many sessions were registered under it. *)
Definition sdp_handoffs (streamId : string) (tr : list Action) : nat :=
  length (List.filter (is_create_sdp streamId) tr).

Definition registrations (streamId : string) (tr : list Action) : nat :=
  length (List.filter (is_register streamId) tr).

Definition spawns (tr : list Action) : nat :=
  length (List.filter is_spawn tr).

(** The session that [handleOffer] stores. *)
Definition fresh_session (p : nat) (streamKey : string) (answer : SessionDescription)
  : StreamInfo :=
  {| pc := Some p; streamKey := streamKey; iceCandidates := p; answer := answer;
     ffmpeg := None; audioTrack := None; videoTrack := None; sdpCreated := false |}.

(** Both track kinds have been stored on the session. *)
Definition both_tracks (info : StreamInfo) : Prop :=
  is_Some (audioTrack info) ∧ is_Some (videoTrack info).

Definition is_any_register (a : Action) : bool :=
  match a with
  | ARegister _ => true
  | _ => false
  end.

(** Number of sessions registered, under whatever [streamId]. *)
Definition all_registrations (tr : list Action) : nat :=
  length (List.filter is_any_register tr).

(** Actions that neither spawn, nor register, nor hand an SDP over. *)
Definition quiet_action (a : Action) : bool :=
  match a with
  | ASpawn _ _ | ARegister _ | ACreateSDPForFFmpeg _ _ _ => false
  | _ => true
  end.

Definition quiet (l : list Action) : Prop := forallb quiet_action l = true.

(** [1] when a session is registered under [streamId] that has not had
    its SDP handed over yet. *)
Definition pending (m : gmap string StreamInfo) (streamId : string) : nat :=
  match m !! streamId with
  | Some info => if sdpCreated info then 0 else 1
  | None => 0
  end.

(** What holds of the registry and the trace in every reachable state. *)
Definition lifecycle_invariant (m : gmap string StreamInfo) (tr : list Action) : Prop :=
  spawns tr = all_registrations tr ∧
  (∀ streamId info, m !! streamId = Some info →
     (sdpCreated info = true ↔ both_tracks info)) ∧
  (∀ streamId, sdp_handoffs streamId tr + pending m streamId ≤ registrations streamId tr).


(** Time covered by a schedule. *)
Fixpoint total_elapsed (evs : list LoopEvent) : N :=
  match evs with
  | [] => 0%N
  | Elapse d :: evs' => (d + total_elapsed evs')%N
  | _ :: evs' => total_elapsed evs'
  end.

(** Time of the first transition of [iceGatheringState] to ['complete']. *)
Fixpoint first_complete (evs : list LoopEvent) : option N :=
  match evs with
  | [] => None
  | Elapse d :: evs' => N.add d <$> first_complete evs'
  | IceGatheringStateChange GatherComplete :: _ => Some 0%N
  | _ :: evs' => first_complete evs'
  end.

(** When the race between gathering and the timer is decided. *)
Definition race (iceGatheringState : IceGatheringState) (timeout : N)
    (evs : list LoopEvent) : N :=
  match iceGatheringState with
  | GatherComplete => 0%N
  | _ => match first_complete evs with
         | Some c => N.min c timeout
         | None => timeout
         end
  end.

(** ** Sample inputs *)

Definition offer1 : SessionDescription := {| sd_type := "offer"; sd_sdp := "v=0" |}.
Definition audio1 : Track := {| track_id := 1; track_kind := KindAudio |}.
Definition video2 : Track := {| track_id := 2; track_kind := KindVideo |}.
Definition host1 : IceCandidate :=
  {| candidate := "candidate:1 1 UDP 2122252543 192.168.1.13 50000 typ host";
     sdpMLineIndex := Some 0; sdpMid := Some "0" |}.

(** Stream [s1] right after its offer was answered (the timer decided the
    ICE wait), and once both of its tracks have arrived. *)
Definition negotiated : State :=
  default (initial default_muxRtmpUrl)
    (run engine_ok (initial default_muxRtmpUrl)
       [CallHandleOffer "s1" "key123" offer1 [Elapse 5000%N]]).

Definition streaming : State :=
  default negotiated (run engine_ok negotiated [OnTrack 0 audio1; OnTrack 0 video2]).

End Bridge.

(* ===================================================================== *)
(** * The signaling relay: the Socket.IO handlers of [server.js]          *)
(* ===================================================================== *)

Module Signaling.

(** ** Data *)

(** Value of the [users] map, keyed by [socket.id]. *)
Record User := { roomId : string; userId : string; userType : string }.

(** Element of a room's array. *)
Record Participant := {
  socketId : string;
  member_userId : string;
  member_userType : string }.

Global Instance User_eq_dec : EqDecision User.
Proof. solve_decision. Defined.
Global Instance Participant_eq_dec : EqDecision Participant.
Proof. solve_decision. Defined.

(** A JavaScript [Map] with string keys, in insertion order: [set] on a
    present key keeps its position, on a new key appends; [delete]
    leaves no entry for the key. *)
Fixpoint map_get {V} (k : string) (m : list (string * V)) : option V :=
  match m with
  | [] => None
  | (k', v) :: m' => if decide (k = k') then Some v else map_get k m'
  end.

Fixpoint map_set {V} (k : string) (v : V) (m : list (string * V)) : list (string * V) :=
  match m with
  | [] => [(k, v)]
  | (k', v') :: m' =>
      if decide (k = k') then (k, v) :: m' else (k', v') :: map_set k v m'
  end.

Fixpoint map_delete {V} (k : string) (m : list (string * V)) : list (string * V) :=
  match m with
  | [] => []
  | (k', v') :: m' =>
      if decide (k = k') then map_delete k m' else (k', v') :: map_delete k m'
  end.

(** The two module-level maps. *)
Record Server := {
  rooms : gmap string (list Participant);
  users : list (string * User) }.

Definition empty_server : Server := {| rooms := ∅; users := [] |}.

(** What is sent.  Payloads are opaque; a field that the client left out
    is [None] ([undefined]). *)
Inductive Message :=
  | MError (error : string)
  | MJoined (roomId userId : string)
  | MUserJoined (userId userType : string)
  | MRoomUsers (existingUsers : list Participant)
  | MRelayed (payload : option string) (senderId : string)
  | MStreamTypeChanged (streamType : option string) (userId : string)
  | MPeerConnectionState (userId : string) (targetUserId : option string)
      (connectionState iceConnectionState : option string)
  | MUserLeft (userId : string).

Inductive Emission :=
  | SocketJoin (socket roomId : string)
  | SocketLeave (socket : string) (roomId : option string)
  | ToSocket (target event : string) (m : Message)
  | ToRoomExceptSender (socket : string) (roomId : option string)
      (event : string) (m : Message)
  | ToSelf (socket event : string) (m : Message)
  | Callback (socket : string) (m : Message).

(** How a handler ends: normally, or with an uncaught exception. *)
Inductive Completion := Normal | TypeError (message : string).

Record Result := {
  server : Server;
  emitted : list Emission;
  completion : Completion }.

Definition done (st : Server) (out : list Emission) : Result :=
  {| server := st; emitted := out; completion := Normal |}.

Definition throw (st : Server) (message : string) : Result :=
  {| server := st; emitted := []; completion := TypeError message |}.

(** JavaScript truthiness of an optional string field. *)
Definition truthy (o : option string) : bool :=
  match o with
  | Some s => negb (String.eqb s "")
  | None => false
  end.

(** ** [socket.on('join-room', (data, callback) => ...)] *)

Definition on_join_room (st : Server) (socket : string)
    (roomId' userId' userType' : option string) (callback : bool) : Result :=
  match roomId', userId', userType' with
  | Some r, Some u, Some t =>
      if truthy roomId' && truthy userId' && truthy userType' then
        let users' := map_set socket {| roomId := r; userId := u; userType := t |}
                        (users st) in
        let rooms' := if decide (is_Some (rooms st !! r)) then rooms st
                      else <[r := []]> (rooms st) in
        let room := default [] (rooms' !! r) ++
                    [{| socketId := socket; member_userId := u; member_userType := t |}] in
        let rooms' := <[r := room]> rooms' in
        let existingUsers :=
          filter (fun m => socketId m ≠ socket) room in
        done {| rooms := rooms'; users := users' |}
          ([SocketJoin socket r;
            ToRoomExceptSender socket (Some r) "user-joined" (MUserJoined u t);
            ToSelf socket "room-users" (MRoomUsers existingUsers)]
           ++ if callback then [Callback socket (MJoined r u)] else [])
      else
        done st (if callback then [Callback socket (MError "Missing required fields")]
                 else [])
  | _, _, _ =>
      done st (if callback then [Callback socket (MError "Missing required fields")]
               else [])
  end.

(** ** The relays *)

(** [Array.from(users.entries()).find(([_, user]) =>
       user.userId === targetUserId && user.roomId === roomId)] *)
Definition find_target (users : list (string * User))
    (targetUserId roomId' : option string) : option (string * User) :=
  List.find (fun e => bool_decide (Some (userId (snd e)) = targetUserId)
                      && bool_decide (Some (roomId (snd e)) = roomId'))
            users.

Definition on_offer (st : Server) (socket : string)
    (offer targetUserId roomId' : option string) : Result :=
  match map_get socket (users st) with
  | None => done st []
  | Some sender =>
      match find_target (users st) targetUserId roomId' with
      | Some targetUser =>
          done st [ToSocket (fst targetUser) "offer" (MRelayed offer (userId sender))]
      | None => done st []
      end
  end.

Definition on_answer (st : Server) (socket : string)
    (answer targetUserId roomId' : option string) : Result :=
  match map_get socket (users st) with
  | None => done st []
  | Some sender =>
      match find_target (users st) targetUserId roomId' with
      | Some targetUser =>
          done st [ToSocket (fst targetUser) "answer" (MRelayed answer (userId sender))]
      | None => done st []
      end
  end.

(** With a target, the handler first reads [candidate.candidate] for its
    log line, which throws when [candidate] itself is missing. *)
Definition on_ice_candidate (st : Server) (socket : string)
    (candidate targetUserId roomId' : option string) : Result :=
  match map_get socket (users st) with
  | None => done st []
  | Some sender =>
      match find_target (users st) targetUserId roomId' with
      | Some targetUser =>
          match candidate with
          | None => throw st "Cannot read properties of undefined (reading 'candidate')"
          | Some _ =>
              done st [ToSocket (fst targetUser) "ice-candidate"
                         (MRelayed candidate (userId sender))]
          end
      | None => done st []
      end
  end.

(** No sender check here: [users.get(socket.id).userId] is evaluated as
    an argument of [emit], before anything is sent. *)
Definition on_stream_type (st : Server) (socket : string)
    (streamType roomId' : option string) : Result :=
  match map_get socket (users st) with
  | None => throw st "Cannot read properties of undefined (reading 'userId')"
  | Some sender =>
      done st [ToRoomExceptSender socket roomId' "stream-type-changed"
                 (MStreamTypeChanged streamType (userId sender))]
  end.

Definition on_peer_connection_state (st : Server) (socket : string)
    (targetUserId roomId' connectionState iceConnectionState : option string) : Result :=
  match map_get socket (users st) with
  | None => done st []
  | Some sender =>
      match find_target (users st) targetUserId roomId' with
      | Some targetUser =>
          done st [ToSocket (fst targetUser) "peer-connection-state"
                     (MPeerConnectionState (userId sender) targetUserId
                        connectionState iceConnectionState)]
      | None => done st []
      end
  end.

(** ** [leave-room] and [disconnect] *)

(** [index = room.findIndex(u => u.socketId === socket.id);
     if (index > -1) room.splice(index, 1)] *)
Fixpoint remove_first (socket : string) (room : list Participant) : list Participant :=
  match room with
  | [] => []
  | m :: room' =>
      if decide (socketId m = socket) then room' else m :: remove_first socket room'
  end.

Definition on_leave_room (st : Server) (socket : string) (roomId' : option string)
  : Result :=
  match map_get socket (users st) with
  | Some user =>
      let rooms' :=
        match roomId' with
        | Some r => match rooms st !! r with
                    | Some room => <[r := remove_first socket room]> (rooms st)
                    | None => rooms st
                    end
        | None => rooms st
        end in
      done {| rooms := rooms'; users := map_delete socket (users st) |}
        [SocketLeave socket roomId';
         ToRoomExceptSender socket roomId' "user-left" (MUserLeft (userId user))]
  | None => done st [SocketLeave socket roomId']
  end.

Definition on_disconnect (st : Server) (socket : string) : Result :=
  match map_get socket (users st) with
  | Some user =>
      match rooms st !! roomId user with
      | Some room =>
          done {| rooms := <[roomId user := remove_first socket room]> (rooms st);
                  users := map_delete socket (users st) |}
            [ToRoomExceptSender socket (Some (roomId user)) "user-left"
               (MUserLeft (userId user))]
      | None => done {| rooms := rooms st; users := map_delete socket (users st) |} []
      end
  | None => done st []
  end.

(** ** Client events *)

Inductive RelayKind :=
  | KOffer | KAnswer | KIceCandidate | KStreamType | KPeerConnectionState.

(** The fields of a relayed message; a kind reads the ones it declares. *)
Record RelayData := {
  payload : option string;
  targetUserId : option string;
  data_roomId : option string;
  connectionState : option string;
  iceConnectionState : option string }.

Definition relay (kind : RelayKind) (st : Server) (socket : string) (d : RelayData)
  : Result :=
  match kind with
  | KOffer => on_offer st socket (payload d) (targetUserId d) (data_roomId d)
  | KAnswer => on_answer st socket (payload d) (targetUserId d) (data_roomId d)
  | KIceCandidate => on_ice_candidate st socket (payload d) (targetUserId d) (data_roomId d)
  | KStreamType => on_stream_type st socket (payload d) (data_roomId d)
  | KPeerConnectionState =>
      on_peer_connection_state st socket (targetUserId d) (data_roomId d)
        (connectionState d) (iceConnectionState d)
  end.

Inductive ClientEvent :=
  | JoinRoom (socket : string) (roomId userId userType : option string) (callback : bool)
  | Relay (kind : RelayKind) (socket : string) (d : RelayData)
  | LeaveRoom (socket : string) (roomId : option string)
  | Disconnect (socket : string).

Definition handle (st : Server) (ev : ClientEvent) : Result :=
  match ev with
  | JoinRoom socket r u t cb => on_join_room st socket r u t cb
  | Relay kind socket d => relay kind st socket d
  | LeaveRoom socket r => on_leave_room st socket r
  | Disconnect socket => on_disconnect st socket
  end.

(** The registry after a sequence of events.  [None]: one of the
    handlers ended in an uncaught exception; what becomes of the process
    and its maps after that is not modelled. *)
Fixpoint run (st : Server) (evs : list ClientEvent) : option Server :=
  match evs with
  | [] => Some st
  | ev :: evs' =>
      match completion (handle st ev) with
      | Normal => run (server (handle st ev)) evs'
      | TypeError _ => None
      end
  end.

(** ** What the participant-count property speaks about *)

(** Number of connections currently registered in room [r]. *)
Definition registered_in (st : Server) (r : string) : nat :=
  length (filter (fun e => roomId (snd e) = r) (users st)).

(** The participant list of room [r] ([[]] when the room was never created). *)
Definition participants (st : Server) (r : string) : list Participant :=
  default [] (rooms st !! r).

(** Is [ev] a [join-room] sent over connection [socket]. *)
Definition joins_as (socket : string) (ev : ClientEvent) : bool :=
  match ev with
  | JoinRoom s _ _ _ _ => bool_decide (s = socket)
  | _ => false
  end.

(** An entry of room [r] whose connection is not registered in [r]. *)
Definition stale (st : Server) (r : string) (m : Participant) : Prop :=
  m ∈ participants st r ∧
  ∀ user, map_get (socketId m) (users st) = Some user → roomId user ≠ r.

End Signaling.

(* ===================================================================== *)
(** * Further vocabulary for the signaling relay                          *)
(* ===================================================================== *)

Module SignalingInv.
Import Signaling.

(** The room entry [m] is the one that [join-room] pushed for the
    connection [socket] registered as [user]. *)
Definition entry_of (socket : string) (user : User) (m : Participant) : Prop :=
  socketId m = socket ∧ member_userId m = userId user ∧
  member_userType m = userType user.

(** Every registered connection has its entry in the list of the room
    it is registered in. *)
Definition well_listed (st : Server) : Prop :=
  ∀ socket user,
    map_get socket (users st) = Some user →
    ∃ m, m ∈ participants st (roomId user) ∧ entry_of socket user m.

(** No [socket.id] occurs twice among the keys of [users]. *)
Definition unique_keys (st : Server) : Prop := NoDup (users st).*1.

(** Connections registered in room [r], and connections listed in it. *)
Definition registered_sockets (st : Server) (r : string) : list string :=
  (filter (fun e => roomId (snd e) = r) (users st)).*1.

Definition listed_sockets (st : Server) (r : string) : list string :=
  socketId <$> participants st r.

(** Every registration in a room is backed by an entry of its own in the
    list of that room. *)
Definition backed (st : Server) : Prop :=
  ∀ r, registered_sockets st r ⊆+ listed_sockets st r.




(** Sample state: A (connection [sa], broadcaster) and B (connection
    [sb], viewer) in room [R1]. *)
Definition room_AB : Server :=
  server (on_join_room
            (server (on_join_room empty_server "sa" (Some "R1") (Some "A")
                       (Some "broadcaster") true))
            "sb" (Some "R1") (Some "B") (Some "viewer") true).

(** The same room after both have gone. *)
Definition room_emptied : Server :=
  default room_AB (run room_AB [Disconnect "sa"; LeaveRoom "sb" (Some "R1")]).

End SignalingInv.

(* ===================================================================== *)
(** * The HTTP endpoints of the bridge in [server.js]                     *)
(* ===================================================================== *)

Module Api.
Import Bridge.

(** Request bodies; a field the client left out is [None]. *)
Record OfferJson := { offer_type : option string; offer_sdp : option string }.

Record OfferBody := {
  body_streamKey : option string;
  body_offer : option OfferJson }.

(** Response bodies.  The [timestamp] of the statistics is left out. *)
Inductive Json :=
  | JError (error : string)
  | JAnswer (answer : SessionDescription) (iceCandidates : list IceCandidate)
  | JSuccess
  | JStream (stream : StreamStatus)
  | JCleaned (message : string)
  | JStats (activeStreams : nat).

Record Response := { status : nat; body : Json }.

(** [!streamKey || !offer || !offer.type || !offer.sdp] *)
Definition missing_fields (b : OfferBody) : bool :=
  negb (Signaling.truthy (body_streamKey b))
  || match body_offer b with
     | None => true
     | Some o => negb (Signaling.truthy (offer_type o))
                 || negb (Signaling.truthy (offer_sdp o))
     end.

Section WithEngine.
Context (E : Engine).

(** [POST /webrtc-bridge/:streamId/offer].  [None]: the request is still
    waiting for [handleOffer]. *)
Definition post_offer (st : State) (streamId : string) (b : OfferBody)
    (evs : list LoopEvent) : option (Response * State) :=
  if missing_fields b then
    Some ({| status := 400;
             body := JError "Missing required fields: streamKey, offer (type, sdp)" |},
          st)
  else
    let streamKey := default "" (body_streamKey b) in
    let offer := {| sd_type := default "" (body_offer b ≫= offer_type);
                    sd_sdp := default "" (body_offer b ≫= offer_sdp) |} in
    match handleOffer E st streamId streamKey offer evs with
    | None => None
    | Some (Returned answer iceCandidates, st') =>
        Some ({| status := 200; body := JAnswer answer iceCandidates |}, st')
    | Some (Threw message, st') =>
        Some ({| status := 500;
                 body := JError (if decide (message = "")
                                 then "Failed to handle WebRTC offer"
                                 else message) |}, st')
    end.

(** [POST /webrtc-bridge/:streamId/ice-candidate].  [handleIceCandidate]
    does not throw, so the [catch] of the route is never entered. *)
Definition post_ice_candidate (st : State) (streamId : string)
    (candidate : option IceCandidate) : Response * State :=
  match candidate with
  | None => ({| status := 400; body := JError "Missing candidate field" |}, st)
  | Some c =>
      let '(success, st') := handleIceCandidate E st streamId c in
      if success then ({| status := 200; body := JSuccess |}, st')
      else ({| status := 404;
               body := JError "Stream not found or peer connection not available" |},
            st')
  end.

(** [GET /webrtc-bridge/:streamId/status] *)
Definition get_status (st : State) (streamId : string) : Response :=
  match getStreamInfo E st streamId with
  | None => {| status := 404; body := JError "Stream not found" |}
  | Some streamInfo => {| status := 200; body := JStream streamInfo |}
  end.

(** [DELETE /webrtc-bridge/:streamId] *)
Definition delete_stream (st : State) (streamId : string) : Response * State :=
  ({| status := 200;
      body := JCleaned (String.append "Stream "
                          (String.append streamId " cleaned up")) |},
   cleanupStream E st streamId).

(** [GET /webrtc-bridge/stats] *)
Definition get_stats (st : State) : Response :=
  {| status := 200; body := JStats (getActiveStreamCount st) |}.

End WithEngine.

(** A well-formed offer request. *)
Definition offer_request : OfferBody :=
  {| body_streamKey := Some "key123";
     body_offer := Some {| offer_type := Some "offer"; offer_sdp := Some "v=0" |} |}.

End Api.

(* ===================================================================== *)
(** * [getIceServers] of the bridge                                       *)
(* ===================================================================== *)

From Stdlib Require Import Ascii.

Module IceConfig.

Record IceServer := {
  urls : string;
  username : option string;
  credential : option string }.

(** The three environment variables the method reads. *)
Record Env := {
  TURN_SERVER_URL : option string;
  TURN_USERNAME : option string;
  TURN_CREDENTIAL : option string }.

Definition stun_servers : list IceServer :=
  [{| urls := "stun:stun.l.google.com:19302"; username := None; credential := None |};
   {| urls := "stun:stun1.l.google.com:19302"; username := None; credential := None |}].

(** [s.split(',')]: never empty, [""] for the empty string. *)
Fixpoint split_comma (s : string) : list string :=
  match s with
  | EmptyString => [EmptyString]
  | String c s' =>
      if Ascii.eqb c ","%char then EmptyString :: split_comma s'
      else match split_comma s' with
           | h :: t => String c h :: t
           | [] => [String c EmptyString]
           end
  end.

(** [x || undefined] *)
Definition or_undefined (x : option string) : option string :=
  if Signaling.truthy x then x else None.

(** [s] without the prefix [p], when it has that prefix. *)
Fixpoint drop_prefix (p s : string) : option string :=
  match p, s with
  | EmptyString, _ => Some s
  | String a p', String b s' => if Ascii.eqb a b then drop_prefix p' s' else None
  | String _ _, EmptyString => None
  end.

(** [url.replace(/^(turn|turns):\/\//, '')] *)
Definition strip_scheme (url : string) : string :=
  match drop_prefix "turn://" url with
  | Some host => host
  | None => match drop_prefix "turns://" url with
            | Some host => host
            | None => url
            end
  end.

(** The entries pushed for one item of the list, already trimmed. *)
Definition turn_entries (url : string) (turnUsername turnCredential : option string)
  : list IceServer :=
  if String.prefix "turn:" url || String.prefix "turns:" url then
    [{| urls := url;
        username := or_undefined turnUsername;
        credential := or_undefined turnCredential |}]
  else
    let host := strip_scheme url in
    [{| urls := String.append "turn:" (String.append host "?transport=udp");
        username := or_undefined turnUsername;
        credential := or_undefined turnCredential |};
     {| urls := String.append "turn:" (String.append host "?transport=tcp");
        username := or_undefined turnUsername;
        credential := or_undefined turnCredential |}].

Section WithTrim.
(** [String.prototype.trim], of the JavaScript library. *)
Context (trim : string -> string).

Definition getIceServers (env : Env) : list IceServer :=
  stun_servers ++
  if Signaling.truthy (TURN_SERVER_URL env) then
    flat_map (fun url => turn_entries (trim url) (TURN_USERNAME env) (TURN_CREDENTIAL env))
      (split_comma (default "" (TURN_SERVER_URL env)))
  else [].

End WithTrim.

(** [trim] on strings whose white space is ASCII. *)
Definition is_space (c : Ascii.ascii) : bool :=
  let n := Ascii.nat_of_ascii c in
  Nat.eqb n 32 || (Nat.leb 9 n && Nat.leb n 13).

Fixpoint trim_start (l : list Ascii.ascii) : list Ascii.ascii :=
  match l with
  | c :: l' => if is_space c then trim_start l' else l
  | [] => []
  end.

Definition ascii_trim (s : string) : string :=
  String.string_of_list_ascii
    (List.rev (trim_start (List.rev (trim_start (String.list_ascii_of_string s))))).

(** Is the entry one that carries the configured credentials and a TURN
    scheme. *)
Definition turn_entry (env : Env) (e : IceServer) : Prop :=
  username e = or_undefined (TURN_USERNAME env) ∧
  credential e = or_undefined (TURN_CREDENTIAL env) ∧
  (String.prefix "turn:" (urls e) = true ∨ String.prefix "turns:" (urls e) = true).

End IceConfig.

(* ===================================================================== *)
(** * Further vocabulary for the bridge                                   *)
(* ===================================================================== *)

Module BridgeInv.
Import Bridge.

(** Every registered session holds a peer connection that exists, whose
    closures captured the [streamId] the session is registered under,
    and whose candidate array is the one the session refers to. *)
Definition session_invariant (st : State) : Prop :=
  ∀ streamId info,
    activeStreams st !! streamId = Some info →
    ∃ p o, pc info = Some p ∧ iceCandidates info = p ∧
           pcs st !! p = Some o ∧ pc_streamId o = streamId.

(** A pending escalation timer is for a process that was sent SIGTERM,
    and SIGKILL was only ever sent to a process to which SIGTERM could
    not be delivered. *)
Definition timer_invariant (E : Engine) (st : State) : Prop :=
  (∀ i f, timers st !! i = Some (Some f) → AKill f SIGTERM ∈ trace st) ∧
  (∀ f, AKill f SIGKILL ∈ trace st → kill_outcome E f SIGTERM ≠ KillSent).

Definition is_unregister (streamId : string) (a : Action) : bool :=
  match a with
  | AUnregister s => bool_decide (s = streamId)
  | _ => false
  end.

Definition is_cleaned_notice (streamId : string) (a : Action) : bool :=
  match a with
  | AEmit event s => bool_decide (event = "stream-cleaned") && bool_decide (s = streamId)
  | _ => false
  end.

(** Teardowns of sessions registered under [streamId], and
    ["stream-cleaned"] notifications for it. *)
Definition teardowns (streamId : string) (tr : list Action) : nat :=
  length (List.filter (is_unregister streamId) tr).

Definition cleaned_notices (streamId : string) (tr : list Action) : nat :=
  length (List.filter (is_cleaned_notice streamId) tr).

(** [1] when a session is registered under [streamId]. *)
Definition present (m : gmap string StreamInfo) (streamId : string) : nat :=
  match m !! streamId with Some _ => 1 | None => 0 end.

Definition teardown_invariant (m : gmap string StreamInfo) (tr : list Action) : Prop :=
  ∀ streamId,
    cleaned_notices streamId tr = teardowns streamId tr ∧
    teardowns streamId tr + present m streamId ≤ registrations streamId tr.

(** Actions that neither register, nor unregister, nor notify of a
    teardown. *)
Definition silent_action (a : Action) : bool :=
  match a with
  | ARegister _ | AUnregister _ => false
  | AEmit event _ => negb (bool_decide (event = "stream-cleaned"))
  | _ => true
  end.

Definition silent (l : list Action) : Prop := forallb silent_action l = true.

(** The connection states on which [onconnectionstatechange] cleans up. *)
Definition terminal (s : ConnectionState) : bool :=
  match s with
  | CsFailed | CsDisconnected | CsClosed => true
  | _ => false
  end.

(** Nothing has been created, registered or scheduled, and the module
    is not marked as loaded. *)
Definition inert (st : State) : Prop :=
  activeStreams st = ∅ ∧ trace st = [] ∧ pcs st = [] ∧ procs st = [] ∧
  onended st = ∅ ∧ timers st = [] ∧ this_wrtcAvailable st = false.

(** An engine whose processes cannot be sent SIGTERM. *)
Definition engine_sigterm_fails : Engine :=
  {| import_wrtc := true;
     construct_ok := true;
     setRemoteDescription_ok := fun _ => true;
     createAnswer := fun offer => Some {| sd_type := "answer"; sd_sdp := sd_sdp offer |};
     setLocalDescription_ok := fun _ => true;
     gathering_after_answer := Gathering;
     spawn_throws := false;
     close_throws := fun _ => false;
     kill_outcome := fun _ sig => match sig with
                                  | SIGTERM => KillNotSent
                                  | SIGKILL => KillSent
                                  end;
     addIceCandidate_ok := fun _ _ => true |}.

(** The life of stream [s1] up to its teardown and the expiry of the
    escalation timer. *)
Definition life_of_s1 : list Event :=
  [CallHandleOffer "s1" "key123" offer1 [Elapse 5000%N];
   OnTrack 0 audio1; OnTrack 0 video2;
   CallCleanupStream "s1"; OnTimer 0].

Definition torn_down : State :=
  default (initial default_muxRtmpUrl)
    (run engine_ok (initial default_muxRtmpUrl) life_of_s1).

End BridgeInv.

(* ===================================================================== *)
(** * Properties of the bridge                                            *)
(* ===================================================================== *)

(** Case analysis on the four handles of a session. *)
Ltac case_handles info :=
  destruct (Bridge.pc info), (Bridge.ffmpeg info),
    (Bridge.audioTrack info), (Bridge.videoTrack info).

Section BridgeFacts.
Import Bridge.
Context (E : Engine).

(** ** Bookkeeping *)

Lemma kill_with_escalation_streams f st :
  activeStreams (kill_with_escalation E f st) = activeStreams st.
Proof. unfold kill_with_escalation. by destruct (kill_outcome E f SIGTERM). Qed.

Lemma kill_with_escalation_trace f st :
  trace (kill_with_escalation E f st) =
  trace st ++ match kill_outcome E f SIGTERM with
              | KillThrows => [AKill f SIGTERM]
              | _ => [AKill f SIGTERM; ASetTimeout 5000%N f]
              end.
Proof. unfold kill_with_escalation. by destruct (kill_outcome E f SIGTERM). Qed.

(** ** [cleanupStream] *)

Lemma cleanupStream_absent st streamId :
  activeStreams st !! streamId = None → cleanupStream E st streamId = st.
Proof. intros H. unfold cleanupStream. by rewrite H. Qed.

Lemma cleanupStream_streams st streamId :
  activeStreams (cleanupStream E st streamId) = delete streamId (activeStreams st).
Proof.
  unfold cleanupStream.
  destruct (activeStreams st !! streamId) as [info|] eqn:H.
  - case_handles info;
      cbn; rewrite ?kill_with_escalation_streams; reflexivity.
  - symmetry. by apply delete_id.
Qed.

Lemma cleanupStream_trace st streamId info :
  activeStreams st !! streamId = Some info →
  trace (cleanupStream E st streamId) =
  trace st ++ release E info ++ [AUnregister streamId; AEmit "stream-cleaned" streamId].
Proof.
  intros H. unfold cleanupStream, release. rewrite H.
  case_handles info;
    cbn; rewrite ?kill_with_escalation_trace; cbn;
    rewrite <- ?app_assoc; cbn; try reflexivity;
    destruct (kill_outcome E _ SIGTERM); cbn; rewrite <- ?app_assoc; reflexivity.
Qed.

Lemma cleanupStream_gone st streamId :
  activeStreams (cleanupStream E st streamId) !! streamId = None.
Proof. rewrite cleanupStream_streams. apply lookup_delete_eq. Qed.

Lemma release_no_registry info :
  forallb (fun a => negb (is_registry_action a)) (release E info) = true.
Proof.
  unfold release.
  case_handles info;
    cbn; try reflexivity; destruct (kill_outcome E _ SIGTERM); reflexivity.
Qed.

End BridgeFacts.


Section HandleOfferFacts.
Import Bridge.
Context (E : Engine).

(** ** The ICE wait *)

Lemma await_gathering_decided remaining elapsed seen evs :
  (0 < remaining)%N →
  (remaining ≤ total_elapsed evs)%N →
  ∃ seen', await_gathering remaining elapsed seen evs =
           Some ((elapsed + match first_complete evs with
                            | Some c => N.min c remaining
                            | None => remaining
                            end)%N, seen').
Proof.
  revert remaining elapsed seen.
  induction evs as [|e evs IH]; intros remaining elapsed seen Hpos Hcover.
  - cbn in Hcover. lia.
  - destruct e as [d|s|c].
    + cbn [await_gathering first_complete total_elapsed] in *.
      destruct (N.leb_spec remaining d) as [Hfire|Hgo].
      * eexists. f_equal. f_equal.
        destruct (first_complete evs) as [c|]; cbn; lia.
      * destruct (IH (remaining - d)%N (elapsed + d)%N seen) as [seen' ->]; [lia..|].
        eexists. f_equal. f_equal.
        destruct (first_complete evs) as [c|]; cbn; lia.
    + destruct s; cbn [await_gathering first_complete total_elapsed] in *.
      * apply IH; assumption.
      * apply IH; assumption.
      * eexists. f_equal. f_equal. lia.
    + cbn [await_gathering first_complete total_elapsed] in *.
      apply IH; assumption.
Qed.

Lemma waitForIceGathering_decided s timeout evs :
  (0 < timeout)%N →
  (timeout ≤ total_elapsed evs)%N →
  ∃ seen, waitForIceGathering s timeout evs = Some (race s timeout evs, seen).
Proof.
  intros Hpos Hcover. unfold waitForIceGathering, race.
  destruct s; try (by apply (await_gathering_decided timeout 0%N [] evs)).
  by eexists.
Qed.

Lemma race_bounded s timeout evs : (race s timeout evs ≤ timeout)%N.
Proof.
  unfold race. destruct s; try lia; destruct (first_complete evs); lia.
Qed.

(** ** [handleOffer] *)

Lemma handleOffer_threw st streamId streamKey offer evs message st' :
  handleOffer E st streamId streamKey offer evs = Some (Threw message, st') →
  activeStreams st' = activeStreams st.
Proof.
  unfold handleOffer.
  destruct (this_wrtcAvailable st) eqn:Hav; cbn.
  - rewrite Hav; cbn.
    destruct (construct_ok E); cbn; [|by intros [= _ <-]].
    destruct (setRemoteDescription_ok E offer); cbn; [|by intros [= _ <-]].
    destruct (createAnswer E offer) as [answer|]; [|by intros [= _ <-]].
    destruct (setLocalDescription_ok E answer); cbn; [|by intros [= _ <-]].
    destruct (waitForIceGathering _ _ _) as [[t seen]|]; [|done].
    destruct (setupMediaProcessing _ _ _ _ _); [done|by intros [= _ <-]].
  - destruct (import_wrtc E); cbn; [|by intros [= _ <-]].
    destruct (construct_ok E); cbn; [|by intros [= _ <-]].
    destruct (setRemoteDescription_ok E offer); cbn; [|by intros [= _ <-]].
    destruct (createAnswer E offer) as [answer|]; [|by intros [= _ <-]].
    destruct (setLocalDescription_ok E answer); cbn; [|by intros [= _ <-]].
    destruct (waitForIceGathering _ _ _) as [[t seen]|]; [|done].
    destruct (setupMediaProcessing _ _ _ _ _); [done|by intros [= _ <-]].
Qed.

Lemma alter_last {A} (f : A → A) (l : list A) (x : A) :
  alter f (length l) (l ++ [x]) = l ++ [f x].
Proof.
  rewrite <- (Nat.add_0_r (length l)) at 1. by rewrite alter_app_r.
Qed.

Lemma handleOffer_returned st streamId streamKey offer evs answer gathered st' :
  handleOffer E st streamId streamKey offer evs = Some (Returned answer gathered, st') →
  activeStreams st' =
    <[streamId := fresh_session (length (pcs st)) streamKey answer]> (activeStreams st) ∧
  trace st' =
    trace st ++ [ANewPeerConnection (length (pcs st));
                 ASpawn (length (procs st))
                   (String.append (muxRtmpUrl st) (String.append "/" streamKey));
                 ARegister streamId] ∧
  pcs st' = pcs st ++ [{| pc_streamId := streamId; pc_iceCandidates := gathered;
                          pc_ontrack := Some (length (procs st));
                          pc_connectionState := CsNew |}] ∧
  procs st' = procs st ++ [streamId] ∧
  onended st' = onended st ∧
  timers st' = timers st.
Proof.
  unfold handleOffer.
  set (st0 := if this_wrtcAvailable st then st else _).
  assert (Hst0 : activeStreams st0 = activeStreams st ∧ trace st0 = trace st ∧
                 pcs st0 = pcs st ∧ procs st0 = procs st ∧
                 onended st0 = onended st ∧ timers st0 = timers st ∧
                 muxRtmpUrl st0 = muxRtmpUrl st)
    by (subst st0; destruct (this_wrtcAvailable st); done).
  destruct Hst0 as (Hs & Ht & Hp & Hf & Ho & Hti & Hu).
  destruct (negb (this_wrtcAvailable st0)); [done|].
  destruct (negb (construct_ok E)); [done|].
  destruct (negb (setRemoteDescription_ok E offer)); [done|].
  destruct (createAnswer E offer) as [ans|]; [|done].
  destruct (negb (setLocalDescription_ok E ans)); [done|].
  destruct (waitForIceGathering _ _ _) as [[t seen]|]; [|done].
  unfold setupMediaProcessing. destruct (spawn_throws E); [done|].
  cbn. rewrite ?Hs, ?Ht, ?Hp, ?Hf, ?Ho, ?Hti, ?Hu.
  rewrite !alter_last. cbn.
  destruct (activeStreams st !! streamId) as [old|] eqn:Hold;
    intros [= <- <- <-]; cbn;
    rewrite ?Hs, ?Ht, ?Ho, ?Hti, ?insert_insert_eq, <- ?app_assoc; by repeat split.
Qed.

Lemma handleOffer_threw_trace st streamId streamKey offer evs message st' :
  handleOffer E st streamId streamKey offer evs = Some (Threw message, st') →
  trace st' = trace st ∨ trace st' = trace st ++ [ANewPeerConnection (length (pcs st))].
Proof.
  unfold handleOffer.
  set (st0 := if this_wrtcAvailable st then st else _).
  assert (Hst0 : trace st0 = trace st ∧ pcs st0 = pcs st)
    by (subst st0; destruct (this_wrtcAvailable st); done).
  destruct Hst0 as (Ht & Hp).
  destruct (negb (this_wrtcAvailable st0)); [intros [= _ <-]; by left|].
  destruct (negb (construct_ok E)); [intros [= _ <-]; by left|].
  destruct (negb (setRemoteDescription_ok E offer));
    [intros [= _ <-]; right; cbn; by rewrite Ht, Hp|].
  destruct (createAnswer E offer) as [ans|];
    [|intros [= _ <-]; right; cbn; by rewrite Ht, Hp].
  destruct (negb (setLocalDescription_ok E ans));
    [intros [= _ <-]; right; cbn; by rewrite Ht, Hp|].
  destruct (waitForIceGathering _ _ _) as [[t seen]|]; [|done].
  destruct (setupMediaProcessing _ _ _ _ _); [done|].
  intros [= _ <-]; right; cbn; by rewrite Ht, Hp.
Qed.

Lemma handleOffer_returns st streamId streamKey offer evs :
  (5000 ≤ total_elapsed evs)%N →
  is_Some (handleOffer E st streamId streamKey offer evs).
Proof.
  intros Hcover. unfold handleOffer.
  destruct (negb (this_wrtcAvailable _)); [by eexists|].
  destruct (negb (construct_ok E)); [by eexists|].
  destruct (negb (setRemoteDescription_ok E offer)); [by eexists|].
  destruct (createAnswer E offer) as [ans|]; [|by eexists].
  destruct (negb (setLocalDescription_ok E ans)); [by eexists|].
  destruct (waitForIceGathering_decided (gathering_after_answer E) 5000%N evs)
    as [seen ->]; [lia|done|].
  destruct (setupMediaProcessing _ _ _ _ _); by eexists.
Qed.

End HandleOfferFacts.

Section LifecycleFacts.
Import Bridge.
Context (E : Engine).

(** ** Counting in traces *)

Lemma count_app (p : Action → bool) (l1 l2 : list Action) :
  length (List.filter p (l1 ++ l2)) = length (List.filter p l1) + length (List.filter p l2).
Proof. by rewrite List.filter_app, length_app. Qed.

Lemma quiet_count (p : Action → bool) (l : list Action) :
  (∀ a, quiet_action a = true → p a = false) →
  quiet l → length (List.filter p l) = 0.
Proof.
  intros Hp. unfold quiet. induction l as [|a l IH]; cbn; [done|].
  intros [Ha Hl]%andb_prop. rewrite (Hp a Ha). auto.
Qed.

Lemma quiet_spawns l : quiet l → spawns l = 0.
Proof. apply quiet_count. by intros []. Qed.

Lemma quiet_all_registrations l : quiet l → all_registrations l = 0.
Proof. apply quiet_count. by intros []. Qed.

Lemma quiet_registrations s l : quiet l → registrations s l = 0.
Proof. apply quiet_count. by intros []. Qed.

Lemma quiet_sdp_handoffs s l : quiet l → sdp_handoffs s l = 0.
Proof. apply quiet_count. by intros []. Qed.

Lemma quiet_release info : quiet (release E info).
Proof.
  unfold quiet, release.
  case_handles info;
    cbn; try reflexivity; destruct (kill_outcome E _ SIGTERM); reflexivity.
Qed.

Lemma quiet_app l1 l2 : quiet l1 → quiet l2 → quiet (l1 ++ l2).
Proof. unfold quiet. rewrite forallb_app. by intros -> ->. Qed.

(** ** Preservation of the invariant *)

Lemma pending_delete m s s' : pending (delete s m) s' ≤ pending m s'.
Proof.
  unfold pending. destruct (decide (s = s')) as [->|Hne].
  - rewrite lookup_delete_eq. lia.
  - by rewrite lookup_delete_ne.
Qed.

Lemma invariant_quiet m tr l :
  quiet l → lifecycle_invariant m tr → lifecycle_invariant m (tr ++ l).
Proof.
  intros Hl (Hspawn & Hiff & Hcount). split; [|split].
  - unfold spawns, all_registrations in *. rewrite !count_app.
    fold (spawns l) (all_registrations l).
    rewrite quiet_spawns, quiet_all_registrations by done. lia.
  - exact Hiff.
  - intros s. specialize (Hcount s).
    unfold sdp_handoffs, registrations in *. rewrite !count_app.
    fold (sdp_handoffs s l) (registrations s l).
    rewrite quiet_sdp_handoffs, quiet_registrations by done. lia.
Qed.

Lemma invariant_delete m tr s :
  lifecycle_invariant m tr → lifecycle_invariant (delete s m) tr.
Proof.
  intros (Hspawn & Hiff & Hcount). split; [done|split].
  - intros s' info [_ Hlook]%lookup_delete_Some. by eapply Hiff.
  - intros s'. specialize (Hcount s'). pose proof (pending_delete m s s'). lia.
Qed.

Lemma invariant_register m tr s p f url key a :
  lifecycle_invariant m tr →
  lifecycle_invariant (<[s := fresh_session p key a]> m)
    (tr ++ [ANewPeerConnection p; ASpawn f url; ARegister s]).
Proof.
  intros (Hspawn & Hiff & Hcount). split; [|split].
  - unfold spawns, all_registrations in *. rewrite !count_app. cbn. lia.
  - intros s' info. destruct (decide (s = s')) as [->|Hne].
    + rewrite lookup_insert_eq. intros [= <-]. cbn. unfold both_tracks. cbn.
      split; [done|]. intros [[? [=]] _].
    + rewrite lookup_insert_ne by done. apply Hiff.
  - intros s'. specialize (Hcount s').
    unfold sdp_handoffs, registrations, pending in *. rewrite !count_app. cbn.
    destruct (decide (s = s')) as [->|Hne].
    + rewrite lookup_insert_eq. cbn. rewrite bool_decide_eq_true_2 by done. cbn.
      destruct (m !! s') as [old|]; [destruct (sdpCreated old)|]; lia.
    + rewrite lookup_insert_ne by done.
      rewrite bool_decide_eq_false_2 by done. cbn. lia.
Qed.

Lemma invariant_ontrack st streamId p f track :
  lifecycle_invariant (activeStreams st) (trace st) →
  lifecycle_invariant (activeStreams (ontrack st streamId p f track))
    (trace (ontrack st streamId p f track)).
Proof.
  intros Hinv. unfold ontrack.
  destruct (activeStreams st !! streamId) as [info|] eqn:Hlook; [|done].
  destruct Hinv as (Hspawn & Hiff & Hcount).
  pose proof (Hiff _ _ Hlook) as Hold.
  pose proof (Hcount streamId) as Hcnt. unfold pending in Hcnt. rewrite Hlook in Hcnt.
  destruct info as [pc0 key0 ice0 ans0 ff0 au0 vi0 sdp0].
  unfold both_tracks in Hold. cbn in Hold, Hcnt.
  destruct (track_kind track), au0 as [au|], vi0 as [vi|], sdp0; cbn;
    try (exfalso; destruct Hold as [Hfwd Hbwd];
         first [ by destruct (Hfwd eq_refl) as [[? ?] [? ?]]
               | by assert (false = true) by (apply Hbwd; split; eauto) ]);
    (split; [|split]);
    first
      [ (* spawn and registration counts *)
        unfold spawns, all_registrations in *; rewrite ?count_app; cbn; lia
      | (* flag and tracks agree *)
        intros s' info'; destruct (decide (streamId = s')) as [->|Hne];
        [ rewrite lookup_insert_eq; intros [= <-]; unfold both_tracks; cbn;
          split;
          [ intros Hflag; try discriminate Hflag; split; eauto
          | intros [[? Ha] [? Hv]]; try discriminate Ha; try discriminate Hv;
            reflexivity ]
        | rewrite lookup_insert_ne by done; apply Hiff ]
      | (* at most one hand-off per registration *)
        intros s'; specialize (Hcount s');
        unfold sdp_handoffs, registrations, pending in *; rewrite ?count_app; cbn;
        destruct (decide (streamId = s')) as [->|Hne];
        [ rewrite lookup_insert_eq; cbn; rewrite ?bool_decide_eq_true_2 by done;
          cbn; lia
        | rewrite lookup_insert_ne by done;
          rewrite ?bool_decide_eq_false_2 by done; cbn; lia ] ].
Qed.

Lemma invariant_cleanupStream st streamId :
  lifecycle_invariant (activeStreams st) (trace st) →
  lifecycle_invariant (activeStreams (cleanupStream E st streamId))
    (trace (cleanupStream E st streamId)).
Proof.
  intros Hinv.
  destruct (activeStreams st !! streamId) as [info|] eqn:Hlook.
  - rewrite cleanupStream_streams, (cleanupStream_trace E _ _ _ Hlook).
    apply invariant_quiet; [|by apply invariant_delete].
    apply quiet_app; [apply quiet_release|done].
  - by rewrite cleanupStream_absent.
Qed.

Lemma invariant_step st ev st' :
  step E st ev = Some st' →
  lifecycle_invariant (activeStreams st) (trace st) →
  lifecycle_invariant (activeStreams st') (trace st').
Proof.
  intros Hstep Hinv. destruct ev as [s key offer sched|s c|s|p c|p cs|p track|t|f code|f|i];
    cbn in Hstep.
  - destruct (handleOffer E st s key offer sched) as [[[ans gathered|message] st1]|] eqn:Hoffer;
      [| |done]; cbn in Hstep; injection Hstep as <-.
    + destruct (handleOffer_returned E _ _ _ _ _ _ _ _ Hoffer) as (-> & -> & _).
      by apply invariant_register.
    + rewrite (handleOffer_threw E _ _ _ _ _ _ _ Hoffer).
      destruct (handleOffer_threw_trace E _ _ _ _ _ _ _ Hoffer) as [-> | ->]; [done|].
      by apply invariant_quiet.
  - injection Hstep as <-. unfold handleIceCandidate.
    destruct (activeStreams st !! s) as [info|]; [|done].
    destruct (pc info) as [p|]; [|done].
    destruct (negb (this_wrtcAvailable st)); [done|].
    destruct (addIceCandidate_ok E p c); [|done].
    by apply (invariant_quiet _ _ [AAddIceCandidate p c]).
  - injection Hstep as <-. by apply invariant_cleanupStream.
  - injection Hstep as <-. by destruct (pcs st !! p).
  - injection Hstep as <-. destruct (pcs st !! p) as [o|]; [|done].
    destruct cs; cbn; try done.
    + by apply (invariant_quiet _ _ [AEmit "stream-connected" (pc_streamId o)]).
    + by apply (invariant_cleanupStream (with_pcs _ st)).
    + by apply (invariant_cleanupStream (with_pcs _ st)).
    + by apply (invariant_cleanupStream (with_pcs _ st)).
  - injection Hstep as <-. destruct (pcs st !! p) as [o|]; [|done].
    destruct (pc_ontrack o) as [f|]; [|done]. by apply invariant_ontrack.
  - injection Hstep as <-. destruct (onended st !! t); [|done].
    by apply invariant_cleanupStream.
  - injection Hstep as <-. destruct (procs st !! f) as [s|]; [|done].
    unfold ffmpeg_on_close. destruct code as [c|]; [|done].
    destruct (c =? 0)%Z; [done|]. by apply invariant_cleanupStream.
  - injection Hstep as <-. destruct (procs st !! f) as [s|]; [|done].
    by apply invariant_cleanupStream.
  - injection Hstep as <-. destruct (timers st !! i) as [[f|]|]; try done.
    unfold escalate. destruct (killed _ _ _); cbn; [done|].
    by apply (invariant_quiet _ _ [AKill f SIGKILL]).
Qed.

Lemma invariant_run evs : ∀ st st',
  run E st evs = Some st' →
  lifecycle_invariant (activeStreams st) (trace st) →
  lifecycle_invariant (activeStreams st') (trace st').
Proof.
  induction evs as [|ev evs IH]; intros st st' Hrun Hinv; cbn in Hrun.
  - by injection Hrun as <-.
  - destruct (step E st ev) as [st1|] eqn:Hstep; [|done].
    eapply IH; [exact Hrun|]. by eapply invariant_step.
Qed.

Lemma invariant_initial url :
  lifecycle_invariant (activeStreams (initial url)) (trace (initial url)).
Proof. split; [done|split]; [by intros ? ? ?|by intros ?]. Qed.

End LifecycleFacts.

Section OnTrackFacts.
Import Bridge.

(** [pc.ontrack] hands the SDP over exactly at the event after which
    both tracks are stored on a session whose flag was still down, and
    raises the flag; otherwise it calls nothing and leaves the flag. *)
Lemma ontrack_handoff st streamId p f track info :
  activeStreams st !! streamId = Some info →
  ∃ info',
    activeStreams (ontrack st streamId p f track) !! streamId = Some info' ∧
    (both_tracks info' ∧ sdpCreated info = false →
       trace (ontrack st streamId p f track)
         = trace st ++ [ACreateSDPForFFmpeg streamId p f] ∧
       sdpCreated info' = true) ∧
    (¬ (both_tracks info' ∧ sdpCreated info = false) →
       trace (ontrack st streamId p f track) = trace st ∧
       sdpCreated info' = sdpCreated info).
Proof.
  intros Hlook. unfold ontrack. rewrite Hlook.
  destruct info as [pc0 key0 ice0 ans0 ff0 au0 vi0 sdp0].
  destruct (track_kind track), au0 as [au|], vi0 as [vi|], sdp0; cbn;
    rewrite lookup_insert_eq; eexists; (split; [reflexivity|]);
    unfold both_tracks; cbn;
    (split;
     [ intros [[[? Ha] [? Hv]] Hflag];
       try discriminate Ha; try discriminate Hv; try discriminate Hflag; done
     | intros Hnot; try done; exfalso; apply Hnot; eauto ]).
Qed.

End OnTrackFacts.

Section OwnershipFacts.
Import Bridge.
Context (E : Engine).

Lemma cleanupStream_pcs st streamId : pcs (cleanupStream E st streamId) = pcs st.
Proof.
  unfold cleanupStream. destruct (activeStreams st !! streamId) as [info|]; [|done].
  case_handles info; cbn;
    unfold kill_with_escalation; try destruct (kill_outcome E _ SIGTERM); done.
Qed.



(** A peer connection left behind by a failed [handleOffer] has no
    [ontrack] handler. *)
Lemma handleOffer_threw_natives st streamId streamKey offer evs message st' :
  handleOffer E st streamId streamKey offer evs = Some (Threw message, st') →
  procs st' = procs st ∧
  (pcs st' = pcs st ∨ ∃ o, pcs st' = pcs st ++ [o] ∧ pc_ontrack o = None).
Proof.
  unfold handleOffer.
  set (st0 := if this_wrtcAvailable st then st else _).
  assert (Hst0 : procs st0 = procs st ∧ pcs st0 = pcs st)
    by (subst st0; destruct (this_wrtcAvailable st); done).
  destruct Hst0 as (Hf & Hp).
  destruct (negb (this_wrtcAvailable st0)); [intros [= _ <-]; by split; [|left]|].
  destruct (negb (construct_ok E)); [intros [= _ <-]; by split; [|left]|].
  destruct (negb (setRemoteDescription_ok E offer));
    [intros [= _ <-]; cbn; rewrite Hp; split; [done|right; by eexists]|].
  destruct (createAnswer E offer) as [ans|];
    [|intros [= _ <-]; cbn; rewrite Hp; split; [done|right; by eexists]].
  destruct (negb (setLocalDescription_ok E ans));
    [intros [= _ <-]; cbn; rewrite Hp; split; [done|right; by eexists]|].
  destruct (waitForIceGathering _ _ _) as [[t seen]|]; [|done].
  destruct (setupMediaProcessing _ _ _ _ _); [done|].
  intros [= _ <-]; cbn. rewrite Hp, alter_last. split; [done|right; by eexists].
Qed.





End OwnershipFacts.
Section BridgeClaims.
Import Bridge.

(** C6.  [cleanupStream] is idempotent.  Without a session for
    [streamId] it changes nothing: same registry, same trace, hence no
    resource operation and no ["stream-cleaned"] notification.  Called
    twice in a row it does what one call does: the second call finds no
    session and leaves the state of the first untouched, so that with a
    session [info] the two calls together perform the operations of a
    single teardown, once. *)
Theorem cleanupStream_idempotent (E : Engine) (st : State) (streamId : string) :
  (activeStreams st !! streamId = None → cleanupStream E st streamId = st) ∧
  activeStreams (cleanupStream E st streamId) !! streamId = None ∧
  cleanupStream E (cleanupStream E st streamId) streamId = cleanupStream E st streamId ∧
  (∀ info, activeStreams st !! streamId = Some info →
     trace (cleanupStream E (cleanupStream E st streamId) streamId) =
     trace st ++ release E info
       ++ [AUnregister streamId; AEmit "stream-cleaned" streamId]).
Proof.
  split; [apply cleanupStream_absent|].
  split; [apply cleanupStream_gone|].
  assert (Hsecond : cleanupStream E (cleanupStream E st streamId) streamId
                    = cleanupStream E st streamId)
    by apply cleanupStream_absent, cleanupStream_gone.
  split; [exact Hsecond|].
  intros info Hinfo. rewrite Hsecond. by apply cleanupStream_trace.
Qed.

Lemma cleanupStream_idempotent_witness :
  cleanupStream engine_ok (initial default_muxRtmpUrl) "s1" = initial default_muxRtmpUrl ∧
  trace (cleanupStream engine_ok (cleanupStream engine_ok streaming "s1") "s1") =
  trace streaming ++
    [APcClose 0; AKill 0 SIGTERM; ASetTimeout 5000%N 0; ATrackStop 1; ATrackStop 2;
     AUnregister "s1"; AEmit "stream-cleaned" "s1"].
Proof.
  split.
  - destruct (cleanupStream_idempotent engine_ok (initial default_muxRtmpUrl) "s1")
      as (Habsent & _).
    apply Habsent. reflexivity.
  - destruct (cleanupStream_idempotent engine_ok streaming "s1")
      as (_ & _ & _ & Honce).
    apply (Honce {| pc := Some 0; streamKey := "key123"; iceCandidates := 0;
                    answer := {| sd_type := "answer"; sd_sdp := "v=0" |};
                    ffmpeg := Some 0; audioTrack := Some 1; videoTrack := Some 2;
                    sdpCreated := true |}).
    vm_compute. reflexivity.
Defined.

(** C2, as stated, fails: for the stream [s1] with both tracks, the first
    thing [cleanupStream] does is close the peer connection; the entry
    is deleted from the map only after the process was signalled and both
    tracks were stopped. *)
Lemma cleanupStream_unregisters_first_counterexample :
  is_Some (activeStreams streaming !! "s1") ∧
  trace (cleanupStream engine_ok streaming "s1") =
  trace streaming ++
    [APcClose 0; AKill 0 SIGTERM; ASetTimeout 5000%N 0; ATrackStop 1; ATrackStop 2;
     AUnregister "s1"; AEmit "stream-cleaned" "s1"] ∧
  ¬ (∃ rest, trace (cleanupStream engine_ok streaming "s1") =
             trace streaming ++ AUnregister "s1" :: rest).
Proof.
  split; [vm_compute; eauto|].
  split; [vm_compute; reflexivity|].
  intros [rest Hrest]. vm_compute in Hrest. discriminate Hrest.
Qed.

(** C2, amended.  With a session [info] registered for [streamId],
    [cleanupStream] first performs the resource operations (close the
    peer connection, signal the process, stop the audio and the video
    track, each one present), none of which touches the registry, then
    deletes the entry, then emits ["stream-cleaned"].  The entry is gone
    when the call returns, and a further call does nothing. *)
Theorem cleanupStream_releases_then_unregisters
    (E : Engine) (st : State) (streamId : string) (info : StreamInfo) :
  activeStreams st !! streamId = Some info →
  trace (cleanupStream E st streamId) =
    trace st ++ release E info
      ++ [AUnregister streamId; AEmit "stream-cleaned" streamId] ∧
  forallb (fun a => negb (is_registry_action a)) (release E info) = true ∧
  (∀ p, pc info = Some p → APcClose p ∈ release E info) ∧
  (∀ f, ffmpeg info = Some f → AKill f SIGTERM ∈ release E info) ∧
  (∀ t, audioTrack info = Some t ∨ videoTrack info = Some t →
        ATrackStop t ∈ release E info) ∧
  activeStreams (cleanupStream E st streamId) !! streamId = None ∧
  cleanupStream E (cleanupStream E st streamId) streamId = cleanupStream E st streamId.
Proof.
  intros Hinfo.
  split; [by apply cleanupStream_trace|].
  split; [apply release_no_registry|].
  split; [|split; [|split; [|split]]].
  - intros p Hp. unfold release. rewrite Hp.
    rewrite !elem_of_app, list_elem_of_singleton. auto.
  - intros f Hf. unfold release. rewrite Hf.
    rewrite !elem_of_app.
    destruct (kill_outcome E f SIGTERM); rewrite elem_of_cons; auto.
  - intros t [Ht|Ht]; unfold release; rewrite Ht;
      rewrite !elem_of_app, list_elem_of_singleton; auto.
  - apply cleanupStream_gone.
  - apply cleanupStream_absent, cleanupStream_gone.
Qed.

Lemma cleanupStream_releases_then_unregisters_witness :
  trace (cleanupStream engine_ok streaming "s1") =
    trace streaming ++
      [APcClose 0; AKill 0 SIGTERM; ASetTimeout 5000%N 0; ATrackStop 1; ATrackStop 2]
      ++ [AUnregister "s1"; AEmit "stream-cleaned" "s1"] ∧
  activeStreams (cleanupStream engine_ok streaming "s1") !! "s1" = None.
Proof.
  assert (H : activeStreams streaming !! "s1" =
              Some {| pc := Some 0; streamKey := "key123"; iceCandidates := 0;
                      answer := {| sd_type := "answer"; sd_sdp := "v=0" |};
                      ffmpeg := Some 0; audioTrack := Some 1; videoTrack := Some 2;
                      sdpCreated := true |})
    by (vm_compute; reflexivity).
  destruct (cleanupStream_releases_then_unregisters engine_ok streaming "s1" _ H)
    as (Htrace & _ & _ & _ & _ & Hgone & _).
  split; [exact Htrace | exact Hgone].
Defined.




(** The exit of a process that was replaced: after a second offer for
    [s1], a failure of the first process removes the second session. *)
Example replaced_process_exit :
  (fun st => (dom (activeStreams st), drop 7 (trace st)))
    <$> run engine_ok (initial default_muxRtmpUrl)
          [CallHandleOffer "s1" "key123" offer1 [Elapse 5000%N];
           OnTrack 0 audio1; OnTrack 0 video2;
           CallHandleOffer "s1" "key123" offer1 [Elapse 5000%N];
           OnFfmpegClose 0 (Some 1%Z)]
  = Some (∅, [APcClose 1; AUnregister "s1"; AEmit "stream-cleaned" "s1"]).
Proof. vm_compute. reflexivity. Qed.



(** A session without a peer-connection handle, for the second case. *)
Example handleIceCandidate_no_handle :
  let info := {| pc := None; streamKey := "key123"; iceCandidates := 0;
                 answer := {| sd_type := "answer"; sd_sdp := "v=0" |};
                 ffmpeg := None; audioTrack := None; videoTrack := None;
                 sdpCreated := false |} in
  let st := with_activeStreams {[ "s1" := info ]} streaming in
  handleIceCandidate engine_ok st "s1" host1 = (false, st).
Proof. vm_compute. reflexivity. Qed.

(** C10.  [handleOffer] is atomic with respect to the registry when it
    fails: if the call for a [streamId] that has no session throws (the
    native module cannot be loaded, or the constructor, one of the
    negotiation steps or [spawn] fails), the [activeStreams] map is the
    one from before the call; [getStreamInfo streamId] is still [null]
    and [getActiveStreamCount] has not changed. *)
Theorem handleOffer_failure_leaves_registry
    (E : Engine) (st : State) (streamId streamKey : string)
    (offer : SessionDescription) (evs : list LoopEvent) (message : string) (st' : State) :
  activeStreams st !! streamId = None →
  handleOffer E st streamId streamKey offer evs = Some (Threw message, st') →
  activeStreams st' = activeStreams st ∧
  getStreamInfo E st' streamId = None ∧
  getActiveStreamCount st' = getActiveStreamCount st.
Proof.
  intros Habsent Hthrew.
  apply handleOffer_threw in Hthrew.
  unfold getStreamInfo, getActiveStreamCount. rewrite Hthrew, Habsent. done.
Qed.

(** An engine that loads but rejects every remote description. *)
Lemma handleOffer_failure_leaves_registry_witness :
  let E := {| import_wrtc := true;
              construct_ok := true;
              setRemoteDescription_ok := fun _ => false;
              createAnswer := fun _ => None;
              setLocalDescription_ok := fun _ => true;
              gathering_after_answer := Gathering;
              spawn_throws := false;
              close_throws := fun _ => false;
              kill_outcome := fun _ _ => KillSent;
              addIceCandidate_ok := fun _ _ => true |} in
  (∃ st', handleOffer engine_no_wrtc (initial default_muxRtmpUrl) "s2" "key456" offer1 []
            = Some (Threw not_available, st') ∧
          activeStreams st' = ∅ ∧
          getStreamInfo engine_no_wrtc st' "s2" = None ∧
          getActiveStreamCount st' = 0) ∧
  (∃ st', handleOffer E negotiated "s2" "key456" offer1 []
            = Some (Threw "setRemoteDescription", st') ∧
          activeStreams st' = activeStreams negotiated ∧
          getStreamInfo E st' "s2" = None ∧
          getActiveStreamCount st' = 1).
Proof.
  intros E. split.
  - eexists. split; [vm_compute; reflexivity|].
    eapply (handleOffer_failure_leaves_registry engine_no_wrtc
              (initial default_muxRtmpUrl) "s2" "key456" offer1 []);
      vm_compute; reflexivity.
  - eexists. split; [vm_compute; reflexivity|].
    eapply (handleOffer_failure_leaves_registry E negotiated "s2" "key456" offer1 []);
      vm_compute; reflexivity.
Defined.

(** C7.  Whatever happens during ICE gathering, once the schedule covers
    the 5000 ms of the timer [handleOffer] has returned (or thrown): the
    wait inside it is decided at time [race], which is the time of the
    first transition of the gathering state to ['complete'] or 5000 ms,
    whichever comes first (and [0] when gathering was complete already),
    and therefore never later than 5000 ms. *)
Theorem handleOffer_returns_within_timeout
    (E : Engine) (st : State) (streamId streamKey : string)
    (offer : SessionDescription) (evs : list LoopEvent) :
  (5000 ≤ total_elapsed evs)%N →
  is_Some (handleOffer E st streamId streamKey offer evs) ∧
  ∃ t seen,
    waitForIceGathering (gathering_after_answer E) 5000%N evs = Some (t, seen) ∧
    t = race (gathering_after_answer E) 5000%N evs ∧
    (t ≤ 5000)%N.
Proof.
  intros Hcover. split; [by apply handleOffer_returns|].
  destruct (waitForIceGathering_decided (gathering_after_answer E) 5000%N evs)
    as [seen Hwait]; [lia|done|].
  exists (race (gathering_after_answer E) 5000%N evs), seen.
  split; [exact Hwait|]. split; [reflexivity|]. apply race_bounded.
Qed.

(** Two schedules: no gathering event at all, and gathering that
    completes after 1200 ms. *)
Lemma handleOffer_returns_within_timeout_witness :
  (is_Some (handleOffer engine_ok (initial default_muxRtmpUrl) "s1" "key123" offer1
              [Elapse 2500%N; Elapse 2500%N]) ∧
   ∃ t seen, waitForIceGathering Gathering 5000%N [Elapse 2500%N; Elapse 2500%N]
               = Some (t, seen) ∧
             t = race Gathering 5000%N [Elapse 2500%N; Elapse 2500%N] ∧ (t ≤ 5000)%N) ∧
  (is_Some (handleOffer engine_ok (initial default_muxRtmpUrl) "s1" "key123" offer1
              [IceCandidateEvent (Some host1); Elapse 1200%N;
               IceGatheringStateChange GatherComplete; Elapse 4000%N]) ∧
   ∃ t seen, waitForIceGathering Gathering 5000%N
               [IceCandidateEvent (Some host1); Elapse 1200%N;
                IceGatheringStateChange GatherComplete; Elapse 4000%N]
               = Some (t, seen) ∧
             t = race Gathering 5000%N
                   [IceCandidateEvent (Some host1); Elapse 1200%N;
                    IceGatheringStateChange GatherComplete; Elapse 4000%N] ∧
             (t ≤ 5000)%N).
Proof.
  split.
  - apply (handleOffer_returns_within_timeout engine_ok (initial default_muxRtmpUrl)
             "s1" "key123" offer1 [Elapse 2500%N; Elapse 2500%N]).
    apply N.leb_le. vm_compute. reflexivity.
  - apply (handleOffer_returns_within_timeout engine_ok (initial default_muxRtmpUrl)
             "s1" "key123" offer1
             [IceCandidateEvent (Some host1); Elapse 1200%N;
              IceGatheringStateChange GatherComplete; Elapse 4000%N]).
    apply N.leb_le. vm_compute. reflexivity.
Defined.

(** The race on the second schedule is won by gathering, at 1200 ms, and
    the candidate gathered before that is returned to the caller. *)
Example race_won_by_gathering :
  race Gathering 5000%N
    [IceCandidateEvent (Some host1); Elapse 1200%N;
     IceGatheringStateChange GatherComplete; Elapse 4000%N] = 1200%N ∧
  fst <$> handleOffer engine_ok (initial default_muxRtmpUrl) "s1" "key123" offer1
            [IceCandidateEvent (Some host1); Elapse 1200%N;
             IceGatheringStateChange GatherComplete; Elapse 4000%N]
  = Some (Returned {| sd_type := "answer"; sd_sdp := "v=0" |} [host1]).
Proof. split; vm_compute; reflexivity. Qed.

(** Without enough time on the schedule and without a ['complete']
    event the call is still suspended. *)
Example wait_pending :
  handleOffer engine_ok (initial default_muxRtmpUrl) "s1" "key123" offer1
    [Elapse 4999%N; IceGatheringStateChange Gathering] = None.
Proof. vm_compute. reflexivity. Qed.

(** C3.  A second [handleOffer] for a [streamId] whose session [info] is
    still registered is not rejected, and it tears nothing down: when it
    returns, all it has done is create a new peer connection, spawn a
    new process and overwrite the map entry.  The entry holds the new
    peer connection and nothing of [info], so the next [cleanupStream]
    closes the new peer connection only. *)
Theorem handleOffer_overwrites_registered_session
    (E : Engine) (st : State) (streamId streamKey : string)
    (offer : SessionDescription) (evs : list LoopEvent) (info : StreamInfo)
    (answer : SessionDescription) (gathered : list IceCandidate) (st' : State) :
  activeStreams st !! streamId = Some info →
  handleOffer E st streamId streamKey offer evs = Some (Returned answer gathered, st') →
  trace st' =
    trace st ++ [ANewPeerConnection (length (pcs st));
                 ASpawn (length (procs st))
                   (String.append (muxRtmpUrl st) (String.append "/" streamKey));
                 ARegister streamId] ∧
  activeStreams st' !! streamId = Some (fresh_session (length (pcs st)) streamKey answer) ∧
  size (activeStreams st') = size (activeStreams st) ∧
  trace (cleanupStream E st' streamId) =
    trace st' ++ [APcClose (length (pcs st)); AUnregister streamId;
                  AEmit "stream-cleaned" streamId].
Proof.
  intros Hinfo Hret.
  destruct (handleOffer_returned E _ _ _ _ _ _ _ _ Hret) as (Hs & Ht & _).
  assert (Hnew : activeStreams st' !! streamId
                 = Some (fresh_session (length (pcs st)) streamKey answer))
    by (rewrite Hs; apply lookup_insert_eq).
  split; [exact Ht|]. split; [exact Hnew|]. split.
  - rewrite Hs. apply map_size_insert_Some. by eexists.
  - by rewrite (cleanupStream_trace E _ _ _ Hnew).
Qed.

Lemma handleOffer_overwrites_registered_session_witness :
  ∃ st', handleOffer engine_ok streaming "s1" "key123" offer1 [Elapse 5000%N]
           = Some (Returned {| sd_type := "answer"; sd_sdp := "v=0" |} [], st') ∧
         trace st' =
           trace streaming ++
             [ANewPeerConnection 1;
              ASpawn 1 "rtmp://global-live.mux.com:5222/app/key123";
              ARegister "s1"] ∧
         activeStreams st' !! "s1" =
           Some (fresh_session 1 "key123" {| sd_type := "answer"; sd_sdp := "v=0" |}) ∧
         size (activeStreams st') = 1 ∧
         trace (cleanupStream engine_ok st' "s1") =
           trace st' ++ [APcClose 1; AUnregister "s1"; AEmit "stream-cleaned" "s1"].
Proof.
  eexists. split; [vm_compute; reflexivity|].
  eapply (handleOffer_overwrites_registered_session engine_ok streaming "s1" "key123"
            offer1 [Elapse 5000%N]
            {| pc := Some 0; streamKey := "key123"; iceCandidates := 0;
               answer := {| sd_type := "answer"; sd_sdp := "v=0" |};
               ffmpeg := Some 0; audioTrack := Some 1; videoTrack := Some 2;
               sdpCreated := true |});
    vm_compute; reflexivity.
Defined.

(** The run behind C3, in full: stream [s1] is negotiated, receives both
    tracks, is offered again and is then cleaned up.  Peer connection
    [0], process [0] and the tracks [1] and [2] of the first session are
    never closed, signalled or stopped; process [1] is not signalled
    either. *)
Example orphaned_session_trace :
  trace <$> run engine_ok (initial default_muxRtmpUrl)
              [CallHandleOffer "s1" "key123" offer1 [Elapse 5000%N];
               OnTrack 0 audio1; OnTrack 0 video2;
               CallHandleOffer "s1" "key123" offer1 [Elapse 5000%N];
               CallCleanupStream "s1"]
  = Some [ANewPeerConnection 0;
          ASpawn 0 "rtmp://global-live.mux.com:5222/app/key123";
          ARegister "s1";
          ACreateSDPForFFmpeg "s1" 0 0;
          ANewPeerConnection 1;
          ASpawn 1 "rtmp://global-live.mux.com:5222/app/key123";
          ARegister "s1";
          APcClose 1; AUnregister "s1"; AEmit "stream-cleaned" "s1"].
Proof. vm_compute. reflexivity. Qed.

Example orphaned_session_handles :
  (fun st => (closed engine_ok (trace st) 0, killed engine_ok (trace st) 0,
              killed engine_ok (trace st) 1, closed engine_ok (trace st) 1))
    <$> run engine_ok (initial default_muxRtmpUrl)
          [CallHandleOffer "s1" "key123" offer1 [Elapse 5000%N];
           OnTrack 0 audio1; OnTrack 0 video2;
           CallHandleOffer "s1" "key123" offer1 [Elapse 5000%N];
           CallCleanupStream "s1"]
  = Some (false, false, false, true).
Proof. vm_compute. reflexivity. Qed.

(** C1, as stated, fails: answering the offer for [s1] spawns the FFmpeg
    process although no track has been observed; the session it
    registers has neither an audio nor a video track. *)
Lemma pipeline_started_before_tracks_counterexample :
  ∃ st info,
    run engine_ok (initial default_muxRtmpUrl)
      [CallHandleOffer "s1" "key123" offer1 [Elapse 5000%N]] = Some st ∧
    trace st = [ANewPeerConnection 0;
                ASpawn 0 "rtmp://global-live.mux.com:5222/app/key123";
                ARegister "s1"] ∧
    activeStreams st !! "s1" = Some info ∧
    audioTrack info = None ∧ videoTrack info = None.
Proof. do 2 eexists. repeat split; vm_compute; reflexivity. Qed.

(** C1, amended.  In every state [st] that the bridge can reach:
    - an offer that is answered spawns the process then and there,
      right before the session is registered without any track;
    - nothing else spawns: there are as many spawns as registrations;
    - a registered session has had its SDP handed to the pipeline
      ([sdpCreated]) if and only if both an audio and a video track are
      stored on it, the hand-off being made by the track event that
      completes the pair;
    - [createSDPForFFmpeg] has been called at most once per session
      registered under a [streamId]. *)
Theorem pipeline_spawned_at_offer_sdp_after_both_tracks
    (E : Engine) (url : string) (evs : list Event) (st : State) :
  run E (initial url) evs = Some st →
  (∀ streamId streamKey offer sched answer gathered st',
     handleOffer E st streamId streamKey offer sched
       = Some (Returned answer gathered, st') →
     trace st' =
       trace st ++ [ANewPeerConnection (length (pcs st));
                    ASpawn (length (procs st))
                      (String.append (muxRtmpUrl st) (String.append "/" streamKey));
                    ARegister streamId] ∧
     activeStreams st' !! streamId
       = Some (fresh_session (length (pcs st)) streamKey answer)) ∧
  spawns (trace st) = all_registrations (trace st) ∧
  (∀ streamId info, activeStreams st !! streamId = Some info →
     (sdpCreated info = true ↔ both_tracks info) ∧
     ∀ p f track, ∃ info',
       activeStreams (ontrack st streamId p f track) !! streamId = Some info' ∧
       (both_tracks info' ∧ sdpCreated info = false →
          trace (ontrack st streamId p f track)
            = trace st ++ [ACreateSDPForFFmpeg streamId p f] ∧
          sdpCreated info' = true) ∧
       (¬ (both_tracks info' ∧ sdpCreated info = false) →
          trace (ontrack st streamId p f track) = trace st ∧
          sdpCreated info' = sdpCreated info)) ∧
  (∀ streamId, sdp_handoffs streamId (trace st) ≤ registrations streamId (trace st)).
Proof.
  intros Hrun.
  destruct (invariant_run E evs _ _ Hrun (invariant_initial url))
    as (Hspawn & Hiff & Hcount).
  split; [|split; [exact Hspawn|split]].
  - intros streamId streamKey offer sched answer gathered st' Hret.
    destruct (handleOffer_returned E _ _ _ _ _ _ _ _ Hret) as (Hs & Ht & _).
    split; [exact Ht|]. rewrite Hs. apply lookup_insert_eq.
  - intros streamId info Hlook. split; [by eapply Hiff|].
    intros p f track. by apply ontrack_handoff.
  - intros streamId. specialize (Hcount streamId). lia.
Qed.

Lemma pipeline_spawned_at_offer_sdp_after_both_tracks_witness :
  spawns (trace streaming) = all_registrations (trace streaming) ∧
  sdp_handoffs "s1" (trace streaming) ≤ registrations "s1" (trace streaming).
Proof.
  destruct (pipeline_spawned_at_offer_sdp_after_both_tracks engine_ok
              default_muxRtmpUrl
              [CallHandleOffer "s1" "key123" offer1 [Elapse 5000%N];
               OnTrack 0 audio1; OnTrack 0 video2]
              streaming)
    as (_ & Hspawn & _ & Hcount).
  - vm_compute. reflexivity.
  - split; [exact Hspawn | exact (Hcount "s1")].
Defined.

(** The life of stream [s1]: the process is spawned by the offer, the
    SDP is handed over when the second track arrives, and a third track
    event does not hand it over again. *)
Example one_handoff_per_session :
  trace <$> run engine_ok (initial default_muxRtmpUrl)
              [CallHandleOffer "s1" "key123" offer1 [Elapse 5000%N];
               OnTrack 0 audio1; OnTrack 0 video2;
               OnTrack 0 {| track_id := 3; track_kind := KindVideo |}]
  = Some [ANewPeerConnection 0;
          ASpawn 0 "rtmp://global-live.mux.com:5222/app/key123";
          ARegister "s1";
          ACreateSDPForFFmpeg "s1" 0 0].
Proof. vm_compute. reflexivity. Qed.
End BridgeClaims.

(* ===================================================================== *)
(** * Properties of the signaling relay                                   *)
(* ===================================================================== *)

Section SignalingFacts.
Import Signaling.

(** ** The [users] map *)

Lemma map_get_set_eq {V} k (v : V) m : map_get k (map_set k v m) = Some v.
Proof.
  induction m as [|[k' v'] m IH]; cbn.
  - by rewrite decide_True.
  - destruct (decide (k = k')) as [->|Hne]; cbn.
    + by rewrite decide_True.
    + by rewrite decide_False.
Qed.

Lemma map_get_set_ne {V} k k' (v : V) m :
  k ≠ k' → map_get k' (map_set k v m) = map_get k' m.
Proof.
  intros Hne. induction m as [|[k0 v0] m IH]; cbn.
  - by rewrite decide_False.
  - destruct (decide (k = k0)) as [->|Hk]; cbn.
    + by rewrite !decide_False.
    + destruct (decide (k' = k0)); [done|apply IH].
Qed.

Lemma map_get_delete_eq {V} k (m : list (string * V)) : map_get k (map_delete k m) = None.
Proof.
  induction m as [|[k' v'] m IH]; cbn; [done|].
  destruct (decide (k = k')); cbn; [done|]. by rewrite decide_False.
Qed.

Lemma map_get_delete_ne {V} k k' (m : list (string * V)) :
  k ≠ k' → map_get k' (map_delete k m) = map_get k' m.
Proof.
  intros Hne. induction m as [|[k0 v0] m IH]; cbn; [done|].
  destruct (decide (k = k0)) as [->|Hk]; cbn.
  - by rewrite decide_False.
  - destruct (decide (k' = k0)); [done|apply IH].
Qed.

(** ** Room arrays *)

Lemma elem_of_remove_first socket room m :
  m ∈ room → socketId m ≠ socket → m ∈ remove_first socket room.
Proof.
  intros Hin Hne. induction room as [|m' room IH]; cbn; [done|].
  apply elem_of_cons in Hin as [->|Hin].
  - rewrite decide_False by done. apply elem_of_cons. by left.
  - destruct (decide (socketId m' = socket)); [done|].
    apply elem_of_cons. right. by apply IH.
Qed.

(** ** The relays never touch the maps *)

Lemma relay_server kind st socket d : server (relay kind st socket d) = st.
Proof.
  destruct kind; cbn;
    unfold on_offer, on_answer, on_ice_candidate, on_stream_type,
      on_peer_connection_state;
    destruct (map_get socket (users st)); try done;
    destruct (find_target _ _ _); try done.
  by destruct (payload d).
Qed.

(** ** [join-room] *)

Lemma truthy_Some s : s ≠ "" → truthy (Some s) = true.
Proof.
  intros Hs. cbn. destruct (String.eqb_spec s ""); done.
Qed.

Lemma join_room_users st socket r u t cb :
  r ≠ "" → u ≠ "" → t ≠ "" →
  users (server (on_join_room st socket (Some r) (Some u) (Some t) cb))
  = map_set socket {| roomId := r; userId := u; userType := t |} (users st).
Proof.
  intros Hr Hu Ht. unfold on_join_room. by rewrite !truthy_Some.
Qed.

Lemma join_room_participants st socket r u t cb r' :
  r ≠ "" → u ≠ "" → t ≠ "" →
  participants (server (on_join_room st socket (Some r) (Some u) (Some t) cb)) r'
  = if decide (r' = r)
    then participants st r
           ++ [{| socketId := socket; member_userId := u; member_userType := t |}]
    else participants st r'.
Proof.
  intros Hr Hu Ht. unfold on_join_room, participants. rewrite !truthy_Some by done.
  cbn. destruct (decide (r' = r)) as [->|Hne].
  - rewrite lookup_insert_eq. cbn.
    destruct (decide (is_Some (rooms st !! r))) as [[room Hroom]|Hnone]; [done|].
    rewrite lookup_insert_eq. cbn.
    apply eq_None_not_Some in Hnone. by rewrite Hnone.
  - rewrite lookup_insert_ne by done.
    destruct (decide (is_Some (rooms st !! r))); [done|].
    by rewrite lookup_insert_ne.
Qed.

Lemma join_room_invalid st socket r u t cb :
  truthy r && truthy u && truthy t = false →
  server (on_join_room st socket r u t cb) = st.
Proof.
  intros Hbad. unfold on_join_room.
  destruct r as [r|], u as [u|], t as [t|]; try done. by rewrite Hbad.
Qed.

Lemma truthy_inv o : truthy o = true → ∃ s, o = Some s ∧ s ≠ "".
Proof.
  destruct o as [s|]; [|done]. cbn. intros Hs. exists s. split; [done|].
  intros ->. done.
Qed.

(** ** An entry of a connection that is not registered stays *)

Lemma unregistered_entry_step st ev socket r m :
  socketId m = socket →
  joins_as socket ev = false →
  map_get socket (users st) = None →
  m ∈ participants st r →
  map_get socket (users (server (handle st ev))) = None ∧
  m ∈ participants (server (handle st ev)) r.
Proof.
  intros Hm Hev Hnone Hin.
  destruct ev as [s r' u' t' cb|kind s d|s r'|s]; cbn [handle].
  - cbn in Hev. apply bool_decide_eq_false in Hev.
    destruct (truthy r' && truthy u' && truthy t') eqn:Hvalid.
    + apply andb_prop in Hvalid as [[Hr Hu]%andb_prop Ht].
      apply truthy_inv in Hr as (r0 & -> & Hr0).
      apply truthy_inv in Hu as (u0 & -> & Hu0).
      apply truthy_inv in Ht as (t0 & -> & Ht0).
      rewrite join_room_users, join_room_participants by done.
      rewrite map_get_set_ne by done. split; [done|].
      destruct (decide (r = r0)) as [->|_]; [|done].
      apply elem_of_app. by left.
    + by rewrite join_room_invalid.
  - by rewrite relay_server.
  - unfold on_leave_room.
    destruct (map_get s (users st)) as [user|] eqn:Hs; [|done]. cbn.
    assert (s ≠ socket) as Hne by (intros ->; congruence).
    rewrite map_get_delete_ne by done. split; [done|].
    unfold participants in *. cbn.
    destruct r' as [r0|]; [|done].
    destruct (rooms st !! r0) as [room|] eqn:Hroom; [|done].
    destruct (decide (r0 = r)) as [->|Hr].
    + rewrite lookup_insert_eq. cbn. rewrite Hroom in Hin. cbn in Hin.
      apply elem_of_remove_first; congruence.
    + by rewrite lookup_insert_ne.
  - unfold on_disconnect.
    destruct (map_get s (users st)) as [user|] eqn:Hs; [|done].
    assert (s ≠ socket) as Hne by (intros ->; congruence).
    destruct (rooms st !! roomId user) as [room|] eqn:Hroom; cbn;
      rewrite map_get_delete_ne by done; (split; [done|]); [|done].
    unfold participants in *. cbn.
    destruct (decide (roomId user = r)) as [Hr|Hr].
    + rewrite Hr, lookup_insert_eq. cbn. rewrite Hr in Hroom.
      rewrite Hroom in Hin. cbn in Hin.
      apply elem_of_remove_first; congruence.
    + by rewrite lookup_insert_ne.
Qed.

Lemma unregistered_entry_run evs : ∀ st st' socket r m,
  socketId m = socket →
  forallb (fun ev => negb (joins_as socket ev)) evs = true →
  map_get socket (users st) = None →
  m ∈ participants st r →
  run st evs = Some st' →
  map_get socket (users st') = None ∧ m ∈ participants st' r.
Proof.
  induction evs as [|ev evs IH]; intros st st' socket r m Hm Hevs Hnone Hin Hrun.
  - by injection Hrun as <-.
  - cbn in Hevs. apply andb_prop in Hevs as [Hev%negb_true_iff Hevs].
    destruct (unregistered_entry_step st ev socket r m Hm Hev Hnone Hin)
      as [Hnone' Hin'].
    cbn in Hrun. destruct (completion (handle st ev)); [|done].
    by eapply IH.
Qed.

Lemma join_room_completes st socket r u t cb :
  completion (on_join_room st socket r u t cb) = Normal.
Proof.
  unfold on_join_room. destruct r, u, t; try done.
  by destruct (_ && _).
Qed.

Lemma disconnect_completes st socket : completion (on_disconnect st socket) = Normal.
Proof.
  unfold on_disconnect. destruct (map_get _ _); [|done]. by destruct (_ !! _).
Qed.

Lemma disconnect_effect st socket user r :
  map_get socket (users st) = Some user →
  roomId user ≠ r →
  map_get socket (users (server (on_disconnect st socket))) = None ∧
  participants (server (on_disconnect st socket)) r = participants st r.
Proof.
  intros Huser Hr. unfold on_disconnect. rewrite Huser.
  destruct (rooms st !! roomId user) as [room|]; cbn;
    (split; [apply map_get_delete_eq|]); [|done].
  unfold participants. cbn. by rewrite lookup_insert_ne.
Qed.

End SignalingFacts.

Section SignalingClaims.
Import Signaling.

(** C4.  What each relay does with a message from a connection that is
    not in the [users] map: [offer], [answer], [ice-candidate] and
    [peer-connection-state] return at once, sending nothing and changing
    nothing; [stream-type] has no such check and ends in an uncaught
    [TypeError], raised while the argument of [emit] is evaluated. *)
Theorem relay_from_unknown_sender
    (kind : RelayKind) (st : Server) (socket : string) (d : RelayData) :
  map_get socket (users st) = None →
  relay kind st socket d =
    match kind with
    | KStreamType => throw st "Cannot read properties of undefined (reading 'userId')"
    | _ => done st []
    end.
Proof.
  intros Hnone. destruct kind; cbn;
    unfold on_offer, on_answer, on_ice_candidate, on_stream_type,
      on_peer_connection_state;
    by rewrite Hnone.
Qed.

Lemma relay_from_unknown_sender_witness :
  let d := {| payload := Some "screen"; targetUserId := None;
              data_roomId := Some "R1"; connectionState := None;
              iceConnectionState := None |} in
  completion (relay KStreamType empty_server "x" d)
    = TypeError "Cannot read properties of undefined (reading 'userId')" ∧
  relay KOffer empty_server "x" d = done empty_server [].
Proof.
  intros d. split.
  - rewrite (relay_from_unknown_sender KStreamType empty_server "x" d); reflexivity.
  - rewrite (relay_from_unknown_sender KOffer empty_server "x" d); reflexivity.
Defined.

(** C5.  A connection [a] joins room [r1], joins room [r2] without
    leaving [r1], and disconnects.  Its entry in the list of [r1] is
    then stale (the connection is not registered at all) and it stays
    there through every further sequence of events in which [a] does not
    join again. *)
Theorem second_join_leaves_stale_entry
    (st st' : Server) (a r1 r2 u t : string) (cb : bool) (evs : list ClientEvent) :
  r1 ≠ "" → r2 ≠ "" → u ≠ "" → t ≠ "" → r1 ≠ r2 →
  forallb (fun ev => negb (joins_as a ev)) evs = true →
  run st ([JoinRoom a (Some r1) (Some u) (Some t) cb;
           JoinRoom a (Some r2) (Some u) (Some t) cb;
           Disconnect a] ++ evs) = Some st' →
  let m := {| socketId := a; member_userId := u; member_userType := t |} in
  map_get a (users st') = None ∧ stale st' r1 m.
Proof.
  intros Hr1 Hr2 Hu Ht Hne Hevs Hrun m.
  cbn [app run handle] in Hrun.
  rewrite !join_room_completes, disconnect_completes in Hrun.
  set (st1 := server (on_join_room st a (Some r1) (Some u) (Some t) cb)) in *.
  set (st2 := server (on_join_room st1 a (Some r2) (Some u) (Some t) cb)) in *.
  set (st3 := server (on_disconnect st2 a)) in *.
  assert (Hin1 : m ∈ participants st1 r1).
  { subst st1. rewrite join_room_participants by done.
    rewrite decide_True by done. apply elem_of_app. right. by apply list_elem_of_singleton. }
  assert (Hin2 : m ∈ participants st2 r1).
  { subst st2. rewrite join_room_participants by done. by rewrite decide_False. }
  assert (Huser2 : map_get a (users st2)
                   = Some {| roomId := r2; userId := u; userType := t |}).
  { subst st2. rewrite join_room_users by done. apply map_get_set_eq. }
  destruct (disconnect_effect st2 a _ r1 Huser2) as [Hnone3 Hsame3]; [by cbn|].
  fold st3 in Hnone3, Hsame3.
  assert (Hin3 : m ∈ participants st3 r1) by (by rewrite Hsame3).
  destruct (unregistered_entry_run evs st3 st' a r1 m eq_refl Hevs Hnone3 Hin3 Hrun)
    as [Hnone Hin].
  split; [exact Hnone|]. split; [exact Hin|].
  intros user Huser. cbn in Huser. congruence.
Qed.

Lemma second_join_leaves_stale_entry_witness :
  ∃ st',
    run empty_server
      [JoinRoom "a" (Some "R1") (Some "alice") (Some "broadcaster") true;
       JoinRoom "a" (Some "R2") (Some "alice") (Some "broadcaster") true;
       Disconnect "a";
       Disconnect "a";
       LeaveRoom "a" (Some "R1");
       JoinRoom "b" (Some "R1") (Some "bob") (Some "viewer") true;
       LeaveRoom "b" (Some "R1")] = Some st' ∧
    map_get "a" (users st') = None ∧
    stale st' "R1" {| socketId := "a"; member_userId := "alice";
                      member_userType := "broadcaster" |}.
Proof.
  eexists. split; [vm_compute; reflexivity|].
  apply (second_join_leaves_stale_entry empty_server _ "a" "R1" "R2" "alice"
           "broadcaster" true
           [Disconnect "a"; LeaveRoom "a" (Some "R1");
            JoinRoom "b" (Some "R1") (Some "bob") (Some "viewer") true;
            LeaveRoom "b" (Some "R1")]);
    first [discriminate | vm_compute; reflexivity].
Defined.

(** The same run in numbers: one entry in the list of [R1], nobody
    registered in [R1]. *)
Example stale_entry_counts :
  ∃ st,
    Signaling.run empty_server
      [JoinRoom "a" (Some "R1") (Some "alice") (Some "broadcaster") true;
       JoinRoom "a" (Some "R2") (Some "alice") (Some "broadcaster") true;
       Disconnect "a"] = Some st ∧
    participants st "R1" = [{| socketId := "a"; member_userId := "alice";
                               member_userType := "broadcaster" |}] ∧
    participants st "R2" = [] ∧
    users st = [] ∧
    registered_in st "R1" = 0.
Proof. eexists. split; [vm_compute; reflexivity|]. vm_compute. repeat split; reflexivity. Qed.

(** Scenario A of the specification: A joins, B joins, B's offer reaches
    A with B as sender, B disconnects and A is told. *)
Example scenario_A :
  let st1 := server (on_join_room empty_server "sa" (Some "R1") (Some "A")
                       (Some "broadcaster") true) in
  let st2 := server (on_join_room st1 "sb" (Some "R1") (Some "B") (Some "viewer") true) in
  emitted (on_offer st2 "sb" (Some "sdp") (Some "A") (Some "R1"))
    = [ToSocket "sa" "offer" (MRelayed (Some "sdp") "B")] ∧
  emitted (on_disconnect st2 "sb")
    = [ToRoomExceptSender "sb" (Some "R1") "user-left" (MUserLeft "B")] ∧
  participants (server (on_disconnect st2 "sb")) "R1"
    = [{| socketId := "sa"; member_userId := "A"; member_userType := "broadcaster" |}].
Proof. vm_compute. repeat split; reflexivity. Qed.

End SignalingClaims.

(* ===================================================================== *)
(** * Further properties of the signaling relay                           *)
(* ===================================================================== *)

Section SignalingMoreFacts.
Import Signaling SignalingInv.

(** ** What [leave-room] and [disconnect] do to the maps *)

Lemma leave_room_registered st socket user r' :
  map_get socket (users st) = Some user →
  users (server (on_leave_room st socket r')) = map_delete socket (users st) ∧
  ∀ r, participants (server (on_leave_room st socket r')) r
       = if decide (r' = Some r) then remove_first socket (participants st r)
         else participants st r.
Proof.
  intros Huser. unfold on_leave_room. rewrite Huser. cbn. split; [done|].
  intros r. unfold participants. cbn.
  destruct r' as [r0|]; [|by rewrite decide_False].
  destruct (rooms st !! r0) as [room|] eqn:Hroom.
  - destruct (decide (Some r0 = Some r)) as [[= ->]|Hne].
    + by rewrite lookup_insert_eq, Hroom.
    + rewrite lookup_insert_ne; [done|congruence].
  - destruct (decide (Some r0 = Some r)) as [[= ->]|Hne]; [|done].
    by rewrite Hroom.
Qed.

Lemma leave_room_unregistered st socket r' :
  map_get socket (users st) = None →
  on_leave_room st socket r' = done st [SocketLeave socket r'].
Proof. intros Hnone. unfold on_leave_room. by rewrite Hnone. Qed.

Lemma disconnect_registered st socket user :
  map_get socket (users st) = Some user →
  users (server (on_disconnect st socket)) = map_delete socket (users st) ∧
  ∀ r, participants (server (on_disconnect st socket)) r
       = if decide (roomId user = r) then remove_first socket (participants st r)
         else participants st r.
Proof.
  intros Huser. unfold on_disconnect. rewrite Huser.
  destruct (rooms st !! roomId user) as [room|] eqn:Hroom; cbn; (split; [done|]);
    intros r; unfold participants; cbn.
  - destruct (decide (roomId user = r)) as [<-|Hne].
    + by rewrite lookup_insert_eq, Hroom.
    + by rewrite lookup_insert_ne.
  - destruct (decide (roomId user = r)) as [<-|Hne]; [|done]. by rewrite Hroom.
Qed.

Lemma disconnect_unregistered st socket :
  map_get socket (users st) = None → on_disconnect st socket = done st [].
Proof. intros Hnone. unfold on_disconnect. by rewrite Hnone. Qed.

(** ** Registered connections are listed *)

Lemma well_listed_handle st ev : well_listed st → well_listed (server (handle st ev)).
Proof.
  intros Hwl. destruct ev as [s r' u' t' cb|kind s d|s r'|s]; cbn [handle].
  - destruct (truthy r' && truthy u' && truthy t') eqn:Hvalid;
      [|by rewrite join_room_invalid].
    apply andb_prop in Hvalid as [[Hr Hu]%andb_prop Ht].
    apply truthy_inv in Hr as (r0 & -> & Hr0).
    apply truthy_inv in Hu as (u0 & -> & Hu0).
    apply truthy_inv in Ht as (t0 & -> & Ht0).
    intros s' user'. rewrite join_room_users by done.
    destruct (decide (s = s')) as [<-|Hne].
    + rewrite map_get_set_eq. intros [= <-]. cbn [roomId].
      exists {| socketId := s; member_userId := u0; member_userType := t0 |}.
      split; [|done]. rewrite join_room_participants, decide_True by done.
      apply elem_of_app. right. by apply list_elem_of_singleton.
    + rewrite map_get_set_ne by done. intros Huser.
      destruct (Hwl _ _ Huser) as (m & Hin & Hm). exists m. split; [|done].
      rewrite join_room_participants by done.
      destruct (decide (roomId user' = r0)) as [<-|_]; [|done].
      apply elem_of_app. by left.
  - by rewrite relay_server.
  - destruct (map_get s (users st)) as [user|] eqn:Hs;
      [|by rewrite leave_room_unregistered].
    destruct (leave_room_registered st s user r' Hs) as [Hu Hp].
    intros s' user'. rewrite Hu.
    destruct (decide (s = s')) as [<-|Hne]; [by rewrite map_get_delete_eq|].
    rewrite map_get_delete_ne by done. intros Huser.
    destruct (Hwl _ _ Huser) as (m & Hin & Hm). exists m. split; [|done].
    rewrite Hp. destruct (decide _); [|done].
    apply elem_of_remove_first; [done|]. destruct Hm as [-> _]. congruence.
  - destruct (map_get s (users st)) as [user|] eqn:Hs;
      [|by rewrite disconnect_unregistered].
    destruct (disconnect_registered st s user Hs) as [Hu Hp].
    intros s' user'. rewrite Hu.
    destruct (decide (s = s')) as [<-|Hne]; [by rewrite map_get_delete_eq|].
    rewrite map_get_delete_ne by done. intros Huser.
    destruct (Hwl _ _ Huser) as (m & Hin & Hm). exists m. split; [|done].
    rewrite Hp. destruct (decide _); [|done].
    apply elem_of_remove_first; [done|]. destruct Hm as [-> _]. congruence.
Qed.

Lemma run_invariant (P : Server → Prop) :
  (∀ st ev, P st → P (server (handle st ev))) →
  ∀ evs st st', P st → run st evs = Some st' → P st'.
Proof.
  intros Hstep. induction evs as [|ev evs IH]; intros st st' HP Hrun; cbn in Hrun.
  - by injection Hrun as <-.
  - destruct (completion (handle st ev)); [|done]. eapply IH; [|exact Hrun]. by apply Hstep.
Qed.

(** ** Keys of [users] *)

Lemma map_set_keys {V} k (v : V) m :
  (map_set k v m).*1 = if decide (k ∈ m.*1) then m.*1 else m.*1 ++ [k].
Proof.
  induction m as [|[k' v'] m IH]; cbn.
  - rewrite decide_False; [done|]. apply not_elem_of_nil.
  - destruct (decide (k = k')) as [->|Hne]; cbn.
    + rewrite decide_True; [done|]. apply elem_of_cons. by left.
    + rewrite IH. destruct (decide (k ∈ m.*1)) as [Hin|Hnin].
      * rewrite decide_True; [done|]. apply elem_of_cons. by right.
      * rewrite decide_False; [done|]. rewrite elem_of_cons. tauto.
Qed.

Lemma map_delete_keys {V} k (m : list (string * V)) :
  (map_delete k m).*1 = filter (fun x => x ≠ k) m.*1.
Proof.
  induction m as [|[k' v'] m IH]; cbn; [done|].
  destruct (decide (k = k')) as [->|Hne].
  - by rewrite decide_False by tauto.
  - rewrite decide_True by congruence. cbn. by rewrite IH.
Qed.

Lemma map_get_unique {V} k (v : V) m :
  NoDup m.*1 → (k, v) ∈ m → map_get k m = Some v.
Proof.
  induction m as [|[k' v'] m IH]; cbn; intros Hnd Hin.
  - by apply elem_of_nil in Hin.
  - apply NoDup_cons in Hnd as [Hnin Hnd].
    apply elem_of_cons in Hin as [[= <- <-]|Hin].
    + by rewrite decide_True.
    + destruct (decide (k = k')) as [->|Hne]; [|by apply IH].
      exfalso. apply Hnin. apply list_elem_of_fmap. by exists (k', v).
Qed.

Lemma unique_keys_handle st ev : unique_keys st → unique_keys (server (handle st ev)).
Proof.
  unfold unique_keys. intros Hnd.
  destruct ev as [s r' u' t' cb|kind s d|s r'|s]; cbn [handle].
  - destruct (truthy r' && truthy u' && truthy t') eqn:Hvalid;
      [|by rewrite join_room_invalid].
    apply andb_prop in Hvalid as [[Hr Hu]%andb_prop Ht].
    apply truthy_inv in Hr as (r0 & -> & Hr0).
    apply truthy_inv in Hu as (u0 & -> & Hu0).
    apply truthy_inv in Ht as (t0 & -> & Ht0).
    rewrite join_room_users, map_set_keys by done.
    destruct (decide _) as [Hin|Hnin]; [done|].
    apply NoDup_app. split; [done|]. split; [|apply NoDup_singleton].
    intros x Hx ->%list_elem_of_singleton. done.
  - by rewrite relay_server.
  - destruct (map_get s (users st)) as [user|] eqn:Hs;
      [|by rewrite leave_room_unregistered].
    destruct (leave_room_registered st s user r' Hs) as [-> _].
    rewrite map_delete_keys. by apply NoDup_filter.
  - destruct (map_get s (users st)) as [user|] eqn:Hs;
      [|by rewrite disconnect_unregistered].
    destruct (disconnect_registered st s user Hs) as [-> _].
    rewrite map_delete_keys. by apply NoDup_filter.
Qed.

(** ** Registrations are backed by entries *)

Lemma registered_set s v (m : list (string * User)) r :
  (filter (fun e => roomId (snd e) = r) (map_set s v m)).*1
  ⊆+ (if decide (roomId v = r) then [s] else [])
     ++ (filter (fun e => roomId (snd e) = r) m).*1.
Proof.
  induction m as [|[k' v'] m IH]; cbn.
  - destruct (decide (roomId v = r)); cbn; done.
  - destruct (decide (s = k')) as [->|Hne]; cbn.
    + destruct (decide (roomId v = r)), (decide (roomId v' = r)); cbn;
        repeat first [done | apply submseteq_skip | apply submseteq_cons].
    + destruct (decide (roomId v' = r)); cbn; [|done].
      rewrite <- Permutation_middle. by apply submseteq_skip.
Qed.

Lemma registered_delete s (m : list (string * User)) r :
  (filter (fun e => roomId (snd e) = r) (map_delete s m)).*1
  ⊆+ (filter (fun e => roomId (snd e) = r) m).*1 ∧
  s ∉ (filter (fun e => roomId (snd e) = r) (map_delete s m)).*1.
Proof.
  induction m as [|[k' v'] m [IH1 IH2]]; cbn.
  - split; [done|apply not_elem_of_nil].
  - destruct (decide (s = k')) as [->|Hne]; cbn.
    + split; [|done].
      destruct (decide (roomId v' = r)); cbn; [by apply submseteq_cons|done].
    + destruct (decide (roomId v' = r)); cbn; [|done].
      split; [by apply submseteq_skip|]. rewrite not_elem_of_cons. done.
Qed.

Lemma submseteq_remove_first (l : list string) s room :
  l ⊆+ socketId <$> room → s ∉ l → l ⊆+ socketId <$> remove_first s room.
Proof.
  revert l. induction room as [|m room IH]; intros l Hl Hs; cbn in *; [done|].
  destruct (decide (socketId m = s)) as [<-|Hne].
  - apply submseteq_cons_r in Hl as [Hl|(l' & Hl & _)]; [done|].
    exfalso. apply Hs. rewrite Hl. apply elem_of_cons. by left.
  - cbn. apply submseteq_cons_r in Hl as [Hl|(l' & Hl & Hl')].
    + apply submseteq_cons. by apply IH.
    + rewrite Hl. apply submseteq_skip. apply IH; [done|].
      intros Hin. apply Hs. rewrite Hl. apply elem_of_cons. by right.
Qed.

Lemma backed_handle st ev : backed st → backed (server (handle st ev)).
Proof.
  unfold backed, registered_sockets, listed_sockets. intros Hb.
  destruct ev as [s r' u' t' cb|kind s d|s r'|s]; cbn [handle].
  - destruct (truthy r' && truthy u' && truthy t') eqn:Hvalid;
      [|by rewrite join_room_invalid].
    apply andb_prop in Hvalid as [[Hr Hu]%andb_prop Ht].
    apply truthy_inv in Hr as (r0 & -> & Hr0).
    apply truthy_inv in Hu as (u0 & -> & Hu0).
    apply truthy_inv in Ht as (t0 & -> & Ht0).
    intros r. rewrite join_room_users, join_room_participants by done.
    etrans; [apply registered_set|]. cbn.
    destruct (decide (r0 = r)) as [->|Hne].
    + rewrite decide_True by done. rewrite fmap_app. cbn.
      rewrite <- Permutation_cons_append. cbn. by apply submseteq_skip.
    + rewrite decide_False by congruence. cbn. apply Hb.
  - by rewrite relay_server.
  - destruct (map_get s (users st)) as [user|] eqn:Hs;
      [|by rewrite leave_room_unregistered].
    destruct (leave_room_registered st s user r' Hs) as [-> Hp].
    intros r. rewrite Hp. destruct (registered_delete s (users st) r) as [Hsub Hnin].
    destruct (decide _).
    + apply submseteq_remove_first; [|done]. etrans; [exact Hsub|apply Hb].
    + etrans; [exact Hsub|apply Hb].
  - destruct (map_get s (users st)) as [user|] eqn:Hs;
      [|by rewrite disconnect_unregistered].
    destruct (disconnect_registered st s user Hs) as [-> Hp].
    intros r. rewrite Hp. destruct (registered_delete s (users st) r) as [Hsub Hnin].
    destruct (decide _).
    + apply submseteq_remove_first; [|done]. etrans; [exact Hsub|apply Hb].
    + etrans; [exact Hsub|apply Hb].
Qed.

(** ** Rooms stay *)

Lemma rooms_kept_handle st ev r :
  is_Some (rooms st !! r) → is_Some (rooms (server (handle st ev)) !! r).
Proof.
  intros Hr. destruct ev as [s r' u' t' cb|kind s d|s r'|s]; cbn [handle].
  - unfold on_join_room. destruct r' as [r0|], u' as [u0|], t' as [t0|]; try done.
    destruct (_ && _); [|done]. cbn.
    destruct (decide (r0 = r)) as [->|Hne]; [by rewrite lookup_insert_eq|].
    rewrite lookup_insert_ne by done.
    destruct (decide _); [done|]. by rewrite lookup_insert_ne.
  - by rewrite relay_server.
  - unfold on_leave_room. destruct (map_get s (users st)); [|done]. cbn.
    destruct r' as [r0|]; [|done]. destruct (rooms st !! r0) eqn:Hr0; [|done].
    destruct (decide (r0 = r)) as [->|Hne]; [by rewrite lookup_insert_eq|].
    by rewrite lookup_insert_ne.
  - unfold on_disconnect. destruct (map_get s (users st)) as [user|]; [|done].
    destruct (rooms st !! roomId user) eqn:Hr0; [|done]. cbn.
    destruct (decide (roomId user = r)) as [->|Hne]; [by rewrite lookup_insert_eq|].
    by rewrite lookup_insert_ne.
Qed.

(** ** Target resolution *)

Lemma find_target_Some (m : list (string * User)) t r e :
  find_target m t r = Some e →
  e ∈ m ∧ Some (userId (snd e)) = t ∧ Some (roomId (snd e)) = r.
Proof.
  unfold find_target. intros [Hin Hp]%List.find_some.
  apply andb_prop in Hp as [Ht%bool_decide_eq_true Hr%bool_decide_eq_true].
  split; [by apply list_elem_of_In|done].
Qed.

End SignalingMoreFacts.

Section SignalingExtras.
Import Signaling SignalingInv.

(** X1.  [join-room] is rejected exactly when the room id, the user id
    or the role is missing or empty.  A rejected request registers
    nothing, adds nothing to any room and notifies nobody: the only thing
    sent is the error acknowledgement, and only if the client passed a
    callback.  Every other request puts the connection into a Socket.IO
    room. *)
Theorem join_room_rejects_missing_fields
    (st : Server) (socket : string) (r u t : option string) (cb : bool) :
  (truthy r && truthy u && truthy t = false →
     on_join_room st socket r u t cb
     = done st (if cb then [Callback socket (MError "Missing required fields")] else [])) ∧
  (truthy r && truthy u && truthy t = false ↔
     ∀ r0, SocketJoin socket r0 ∉ emitted (on_join_room st socket r u t cb)).
Proof.
  assert (Hrej : truthy r && truthy u && truthy t = false →
            on_join_room st socket r u t cb
            = done st (if cb then [Callback socket (MError "Missing required fields")]
                       else [])).
  { intros Hbad. unfold on_join_room.
    destruct r as [r|], u as [u|], t as [t|]; try done. by rewrite Hbad. }
  split; [exact Hrej|]. split.
  - intros Hbad r0. rewrite (Hrej Hbad). cbn.
    destruct cb; [intros [?|?%elem_of_nil]%elem_of_cons|intros ?%elem_of_nil]; done.
  - intros Hnone. destruct (truthy r && truthy u && truthy t) eqn:Hok; [|done].
    exfalso. unfold on_join_room in Hnone.
    destruct r as [r|], u as [u|], t as [t|];
      try (cbn in Hok; rewrite ?andb_false_r in Hok; discriminate).
    rewrite Hok in Hnone. apply (Hnone r). cbn. apply elem_of_cons. by left.
Qed.

Lemma join_room_rejects_missing_fields_witness :
  on_join_room empty_server "sa" (Some "R1") (Some "") (Some "viewer") true
  = done empty_server [Callback "sa" (MError "Missing required fields")] ∧
  on_join_room empty_server "sa" None (Some "A") (Some "viewer") false
  = done empty_server [].
Proof.
  split.
  - destruct (join_room_rejects_missing_fields empty_server "sa"
                (Some "R1") (Some "") (Some "viewer") true) as [Hrej _].
    apply Hrej. reflexivity.
  - destruct (join_room_rejects_missing_fields empty_server "sa"
                None (Some "A") (Some "viewer") false) as [Hrej _].
    apply Hrej. reflexivity.
Defined.

(** X2.  A valid [join-room] registers the connection under the given
    room, user id and role (replacing what was registered for it),
    leaves every other registration alone, appends one entry to the list
    of that room and touches no other list.  The room is told
    [user-joined], and the joiner receives as [room-users] exactly the
    entries of other connections that were in the list before the call. *)
Theorem join_room_accepts
    (st : Server) (socket r u t : string) (cb : bool) :
  r ≠ "" → u ≠ "" → t ≠ "" →
  let res := on_join_room st socket (Some r) (Some u) (Some t) cb in
  let entry := {| socketId := socket; member_userId := u; member_userType := t |} in
  completion res = Normal ∧
  map_get socket (users (server res))
    = Some {| roomId := r; userId := u; userType := t |} ∧
  (∀ s', s' ≠ socket → map_get s' (users (server res)) = map_get s' (users st)) ∧
  participants (server res) r = participants st r ++ [entry] ∧
  (∀ r', r' ≠ r → participants (server res) r' = participants st r') ∧
  emitted res =
    [SocketJoin socket r;
     ToRoomExceptSender socket (Some r) "user-joined" (MUserJoined u t);
     ToSelf socket "room-users"
       (MRoomUsers (filter (fun m => socketId m ≠ socket) (participants st r)))]
    ++ (if cb then [Callback socket (MJoined r u)] else []).
Proof.
  intros Hr Hu Ht res entry. subst res.
  split; [apply join_room_completes|].
  split; [rewrite join_room_users by done; apply map_get_set_eq|].
  split; [intros s' Hs'; rewrite join_room_users by done;
          by apply map_get_set_ne|].
  split; [rewrite join_room_participants by done; by rewrite decide_True|].
  split; [intros r' Hr'; rewrite join_room_participants by done;
          by rewrite decide_False|].
  unfold on_join_room, participants. rewrite !truthy_Some by done. cbn.
  do 3 f_equal. f_equal.
  assert (Hroom : default [] ((if decide (is_Some (rooms st !! r)) then rooms st
                               else <[r:=[]]> (rooms st)) !! r)
                  = default [] (rooms st !! r)).
  { destruct (decide (is_Some (rooms st !! r))) as [|Hnone]; [done|].
    rewrite lookup_insert_eq. apply eq_None_not_Some in Hnone. by rewrite Hnone. }
  rewrite Hroom, filter_app. cbn. rewrite decide_False by tauto.
  by rewrite app_nil_r.
Qed.

Lemma join_room_accepts_witness :
  let st := server (on_join_room empty_server "sa" (Some "R1") (Some "A")
                      (Some "broadcaster") true) in
  emitted (on_join_room st "sb" (Some "R1") (Some "B") (Some "viewer") true) =
    [SocketJoin "sb" "R1";
     ToRoomExceptSender "sb" (Some "R1") "user-joined" (MUserJoined "B" "viewer");
     ToSelf "sb" "room-users"
       (MRoomUsers [{| socketId := "sa"; member_userId := "A";
                       member_userType := "broadcaster" |}]);
     Callback "sb" (MJoined "R1" "B")].
Proof.
  intros st.
  destruct (join_room_accepts st "sb" "R1" "B" "viewer" true)
    as (_ & _ & _ & _ & _ & Hemit); [discriminate..|].
  exact Hemit.
Defined.



(** X4.  In every state reached from the empty server, a relay target
    is a live member: the connection that [find_target] resolves is
    registered under exactly the user id and room asked for, and its
    entry is in the list of that room. *)
Theorem relay_target_is_member
    (evs : list ClientEvent) (st : Server)
    (targetUserId' roomId' : option string) (target : string * User) :
  run empty_server evs = Some st →
  find_target (users st) targetUserId' roomId' = Some target →
  map_get (fst target) (users st) = Some (snd target) ∧
  targetUserId' = Some (userId (snd target)) ∧
  roomId' = Some (roomId (snd target)) ∧
  ∃ m, m ∈ participants st (roomId (snd target)) ∧
       entry_of (fst target) (snd target) m.
Proof.
  intros Hrun Hfind.
  assert (Hnd : unique_keys st).
  { apply (run_invariant unique_keys unique_keys_handle evs empty_server st);
      [apply NoDup_nil_2|done]. }
  assert (Hwl : well_listed st).
  { apply (run_invariant well_listed well_listed_handle evs empty_server st);
      [by intros ? ? ?|done]. }
  apply find_target_Some in Hfind as (Hin & Ht & Hr).
  assert (Hget : map_get (fst target) (users st) = Some (snd target)).
  { apply map_get_unique; [exact Hnd|]. by destruct target. }
  split; [exact Hget|]. split; [done|]. split; [done|]. by apply Hwl.
Qed.

Lemma relay_target_is_member_witness :
  map_get "sa" (users room_AB)
    = Some {| roomId := "R1"; userId := "A"; userType := "broadcaster" |} ∧
  ∃ m, m ∈ participants room_AB "R1" ∧
       entry_of "sa" {| roomId := "R1"; userId := "A";
                        userType := "broadcaster" |} m.
Proof.
  destruct (relay_target_is_member
              [JoinRoom "sa" (Some "R1") (Some "A") (Some "broadcaster") true;
               JoinRoom "sb" (Some "R1") (Some "B") (Some "viewer") true]
              room_AB (Some "A") (Some "R1")
              ("sa", {| roomId := "R1"; userId := "A"; userType := "broadcaster" |}))
    as (Hget & _ & _ & Hm); [vm_compute; reflexivity..|].
  split; [exact Hget | exact Hm].
Defined.

(** X5.  In every state reached from the empty server, each registered
    connection has its entry in the list of the room it is registered
    in, and the list of a room is at least as long as the number of
    connections registered in it (it can be longer, never shorter). *)
Theorem registered_connections_are_listed
    (evs : list ClientEvent) (st : Server) :
  run empty_server evs = Some st →
  well_listed st ∧ ∀ r, registered_in st r ≤ length (participants st r).
Proof.
  intros Hrun. split.
  - apply (run_invariant well_listed well_listed_handle evs empty_server st);
      [by intros ? ? ?|done].
  - intros r.
    assert (Hb : backed st).
    { apply (run_invariant backed backed_handle evs empty_server st); [|done].
      intros r'. apply submseteq_nil_l. }
    specialize (Hb r). apply submseteq_length in Hb.
    unfold registered_sockets, listed_sockets in Hb.
    rewrite !length_fmap in Hb. exact Hb.
Qed.

Lemma registered_connections_are_listed_witness :
  well_listed room_AB ∧ registered_in room_AB "R1" ≤ length (participants room_AB "R1").
Proof.
  destruct (registered_connections_are_listed
              [JoinRoom "sa" (Some "R1") (Some "A") (Some "broadcaster") true;
               JoinRoom "sb" (Some "R1") (Some "B") (Some "viewer") true]
              room_AB) as [Hwl Hcount]; [vm_compute; reflexivity|].
  split; [exact Hwl | exact (Hcount "R1")].
Defined.

(** X6.  Rooms are never removed: a room that exists still exists after
    any sequence of events, also when its last member has left. *)
Theorem rooms_are_never_removed
    (evs : list ClientEvent) (st st' : Server) (r : string) :
  run st evs = Some st' →
  is_Some (rooms st !! r) → is_Some (rooms st' !! r).
Proof.
  intros Hrun Hr.
  apply (run_invariant (fun s => is_Some (rooms s !! r))
           (fun s ev => rooms_kept_handle s ev r) evs st st'); done.
Qed.

Lemma rooms_are_never_removed_witness :
  is_Some (rooms room_emptied !! "R1") ∧
  participants room_emptied "R1" = [] ∧ users room_emptied = [].
Proof.
  split; [|split; vm_compute; reflexivity].
  apply (rooms_are_never_removed [Disconnect "sa"; LeaveRoom "sb" (Some "R1")]
           room_AB room_emptied "R1"); [vm_compute; reflexivity|vm_compute; eauto].
Defined.

(** X7.  [disconnect] and [leave-room] are safe to repeat.  A connection
    that is not registered changes nothing and notifies nobody; after a
    [disconnect] or a [leave-room] the connection is not registered, so
    a second one is such a no-op; and one call sends [user-left] at most
    once. *)
Theorem leaving_twice_is_harmless
    (st : Server) (socket : string) (r r' : option string) :
  (map_get socket (users st) = None →
     on_disconnect st socket = done st [] ∧
     on_leave_room st socket r = done st [SocketLeave socket r]) ∧
  on_disconnect (server (on_disconnect st socket)) socket
    = done (server (on_disconnect st socket)) [] ∧
  on_disconnect (server (on_leave_room st socket r)) socket
    = done (server (on_leave_room st socket r)) [] ∧
  on_leave_room (server (on_leave_room st socket r)) socket r'
    = done (server (on_leave_room st socket r)) [SocketLeave socket r'] ∧
  length (emitted (on_disconnect st socket)) ≤ 1.
Proof.
  assert (Hd : map_get socket (users (server (on_disconnect st socket))) = None).
  { destruct (map_get socket (users st)) as [user|] eqn:Hs.
    - destruct (disconnect_registered st socket user Hs) as [-> _].
      apply map_get_delete_eq.
    - by rewrite disconnect_unregistered. }
  assert (Hl : map_get socket (users (server (on_leave_room st socket r))) = None).
  { destruct (map_get socket (users st)) as [user|] eqn:Hs.
    - destruct (leave_room_registered st socket user r Hs) as [-> _].
      apply map_get_delete_eq.
    - by rewrite leave_room_unregistered. }
  split; [intros Hnone; split;
          [by apply disconnect_unregistered|by apply leave_room_unregistered]|].
  split; [by apply disconnect_unregistered|].
  split; [by apply disconnect_unregistered|].
  split; [by apply leave_room_unregistered|].
  unfold on_disconnect. destruct (map_get socket (users st)) as [user|]; [|cbn; lia].
  destruct (rooms st !! roomId user); cbn; lia.
Qed.

Lemma leaving_twice_is_harmless_witness :
  on_disconnect empty_server "sa" = done empty_server [] ∧
  on_leave_room empty_server "sa" (Some "R1")
    = done empty_server [SocketLeave "sa" (Some "R1")].
Proof.
  destruct (leaving_twice_is_harmless empty_server "sa" (Some "R1") None)
    as (Hnone & _).
  apply Hnone. reflexivity.
Defined.

(** X8.  [leave-room] trusts the room id of the message.  When a
    registered connection names a room other than the one it is
    registered in, its registration is deleted all the same, the
    [user-left] notice goes to the room named, and its entry stays in
    the list of the room it was registered in. *)
Theorem leave_room_of_another_room
    (st : Server) (socket : string) (user : User) (r' : option string) :
  map_get socket (users st) = Some user →
  r' ≠ Some (roomId user) →
  let res := on_leave_room st socket r' in
  map_get socket (users (server res)) = None ∧
  participants (server res) (roomId user) = participants st (roomId user) ∧
  emitted res = [SocketLeave socket r';
                 ToRoomExceptSender socket r' "user-left" (MUserLeft (userId user))].
Proof.
  intros Huser Hne res. subst res.
  destruct (leave_room_registered st socket user r' Huser) as [Hu Hp].
  split; [rewrite Hu; apply map_get_delete_eq|].
  split; [rewrite Hp; by rewrite decide_False|].
  unfold on_leave_room. by rewrite Huser.
Qed.

Lemma leave_room_of_another_room_witness :
  let res := on_leave_room room_AB "sb" (Some "R9") in
  map_get "sb" (users (server res)) = None ∧
  participants (server res) "R1" = participants room_AB "R1" ∧
  emitted res = [SocketLeave "sb" (Some "R9");
                 ToRoomExceptSender "sb" (Some "R9") "user-left" (MUserLeft "B")].
Proof.
  apply (leave_room_of_another_room room_AB "sb"
           {| roomId := "R1"; userId := "B"; userType := "viewer" |} (Some "R9"));
    [reflexivity|discriminate].
Defined.

End SignalingExtras.

(* ===================================================================== *)
(** * Properties of the HTTP endpoints                                    *)
(* ===================================================================== *)

Section ApiExtras.
Import Bridge Api.

(** X9.  The offer endpoint answers [400] exactly when the body lacks
    a non-empty [streamKey], an [offer], or a non-empty [type] or [sdp]
    in it.  It does so at once and whatever the engine: the bridge is
    not called and its state is untouched. *)
Theorem post_offer_rejects_invalid_body
    (E : Engine) (st : State) (streamId : string) (b : OfferBody)
    (evs : list LoopEvent) :
  (missing_fields b = true →
     post_offer E st streamId b evs
     = Some ({| status := 400;
                body := JError "Missing required fields: streamKey, offer (type, sdp)" |},
             st)) ∧
  (∀ resp st', post_offer E st streamId b evs = Some (resp, st') →
     (status resp = 400 ↔ missing_fields b = true)).
Proof.
  unfold post_offer. split.
  - intros Hmissing. by rewrite Hmissing.
  - intros resp st'. destruct (missing_fields b).
    + by intros [= <- _].
    + destruct (handleOffer _ _ _ _ _ _) as [[[ans cands|message] st1]|];
        [| |done]; intros [= <- _]; cbn; split; done.
Qed.

Lemma post_offer_rejects_invalid_body_witness :
  post_offer engine_ok streaming "s1"
    {| body_streamKey := Some "key123";
       body_offer := Some {| offer_type := Some "offer"; offer_sdp := Some "" |} |} []
  = Some ({| status := 400;
             body := JError "Missing required fields: streamKey, offer (type, sdp)" |},
          streaming).
Proof.
  destruct (post_offer_rejects_invalid_body engine_ok streaming "s1"
              {| body_streamKey := Some "key123";
                 body_offer := Some {| offer_type := Some "offer";
                                       offer_sdp := Some "" |} |} [])
    as [Hrej _].
  apply Hrej. reflexivity.
Defined.

(** X10.  The offer endpoint registers a session exactly when it answers
    [200].  With [200] the stream is registered with the new peer
    connection, and its status right then reports no audio, no video
    and [ffmpegRunning: null], although the process has been spawned.
    With any other status the registry is the one from before the
    request and no process has been spawned. *)
Theorem post_offer_registers_iff_ok
    (E : Engine) (st : State) (streamId : string) (b : OfferBody)
    (evs : list LoopEvent) (resp : Response) (st' : State) :
  post_offer E st streamId b evs = Some (resp, st') →
  (status resp = 200 ∨ status resp = 400 ∨ status resp = 500) ∧
  (status resp = 200 →
     ∃ streamKey answer,
       body_streamKey b = Some streamKey ∧
       activeStreams st' !! streamId
         = Some (fresh_session (length (pcs st)) streamKey answer) ∧
       spawns (trace st') = S (spawns (trace st)) ∧
       ∃ info, get_status E st' streamId = {| status := 200; body := JStream info |} ∧
               status_hasAudio info = false ∧ status_hasVideo info = false ∧
               status_ffmpegRunning info = None) ∧
  (status resp ≠ 200 →
     activeStreams st' = activeStreams st ∧ spawns (trace st') = spawns (trace st)).
Proof.
  unfold post_offer. destruct (missing_fields b) eqn:Hmissing.
  { intros [= <- <-]. cbn. split; [auto|]. split; [done|]. done. }
  destruct (handleOffer E st streamId _ _ evs)
    as [[[answer gathered|message] st1]|] eqn:Hoffer; [| |done];
    intros [= <- <-]; cbn.
  - split; [auto|]. split; [|done]. intros _.
    destruct (handleOffer_returned E _ _ _ _ _ _ _ _ Hoffer) as (Hs & Ht & _).
    unfold missing_fields in Hmissing.
    destruct (body_streamKey b) as [key|]; [|done]. cbn in *.
    exists key, answer. split; [done|].
    assert (Hlook : activeStreams st1 !! streamId
                    = Some (fresh_session (length (pcs st)) key answer))
      by (rewrite Hs; apply lookup_insert_eq).
    split; [exact Hlook|].
    split; [rewrite Ht; unfold spawns; rewrite count_app; cbn; lia|].
    unfold get_status, getStreamInfo. rewrite Hlook. cbn. eauto.
  - split; [auto|]. split; [done|]. intros _.
    split; [by eapply handleOffer_threw|].
    destruct (handleOffer_threw_trace E _ _ _ _ _ _ _ Hoffer) as [-> | ->]; [done|].
    unfold spawns. rewrite count_app. cbn. lia.
Qed.

Lemma post_offer_registers_iff_ok_witness :
  (∃ st', post_offer engine_ok (initial default_muxRtmpUrl) "s1" offer_request
            [Elapse 5000%N]
          = Some ({| status := 200;
                     body := JAnswer {| sd_type := "answer"; sd_sdp := "v=0" |} [] |},
                  st') ∧
          ∃ streamKey answer,
            body_streamKey offer_request = Some streamKey ∧
            activeStreams st' !! "s1" = Some (fresh_session 0 streamKey answer)) ∧
  (∃ st', post_offer engine_no_wrtc (initial default_muxRtmpUrl) "s1" offer_request []
          = Some ({| status := 500; body := JError not_available |}, st') ∧
          activeStreams st' = ∅).
Proof.
  split.
  - eexists. split; [vm_compute; reflexivity|].
    edestruct (post_offer_registers_iff_ok engine_ok (initial default_muxRtmpUrl) "s1"
                 offer_request [Elapse 5000%N])
      as (_ & Hok & _); [vm_compute; reflexivity|].
    destruct (Hok eq_refl) as (key & answer & Hkey & Hlook & _).
    exists key, answer. split; [exact Hkey | exact Hlook].
  - eexists. split; [vm_compute; reflexivity|].
    edestruct (post_offer_registers_iff_ok engine_no_wrtc (initial default_muxRtmpUrl)
                 "s1" offer_request [])
      as (_ & _ & Hfail); [vm_compute; reflexivity|].
    apply Hfail. discriminate.
Defined.

(** X11.  [DELETE] always answers [200], for registered and unknown
    streams alike.  Afterwards the status endpoint answers [404] for
    that stream, the statistics count one stream less if it was
    registered and the same number if not, and a second [DELETE] changes
    nothing more. *)
Theorem delete_then_status_not_found
    (E : Engine) (st : State) (streamId : string) :
  let resp := fst (delete_stream E st streamId) in
  let st' := snd (delete_stream E st streamId) in
  status resp = 200 ∧
  status (get_status E st' streamId) = 404 ∧
  getActiveStreamCount st'
    + match activeStreams st !! streamId with Some _ => 1 | None => 0 end
    = getActiveStreamCount st ∧
  delete_stream E st' streamId = (resp, st').
Proof.
  cbn. split; [done|].
  split; [unfold get_status, getStreamInfo; by rewrite cleanupStream_gone|].
  split.
  - unfold getActiveStreamCount. rewrite cleanupStream_streams.
    destruct (activeStreams st !! streamId) as [info|] eqn:Hlook.
    + rewrite map_size_delete_Some by eauto.
      assert (size (activeStreams st) ≠ 0); [|lia].
      intros Hz%map_size_empty_inv. by rewrite Hz in Hlook.
    + rewrite map_size_delete_None by done. lia.
  - unfold delete_stream. f_equal. apply cleanupStream_absent, cleanupStream_gone.
Qed.

(** Scenario C of the specification, on the sample stream. *)
Example scenario_C :
  status (fst (delete_stream engine_ok streaming "s1")) = 200 ∧
  get_status engine_ok (snd (delete_stream engine_ok streaming "s1")) "s1"
    = {| status := 404; body := JError "Stream not found" |} ∧
  get_stats (snd (delete_stream engine_ok streaming "s1"))
    = {| status := 200; body := JStats 0 |}.
Proof. vm_compute. repeat split; reflexivity. Qed.

(** X12.  The ICE-candidate endpoint answers [400] exactly when the
    body has no candidate, and otherwise [200] exactly when the stream
    is registered with a peer connection, the native module is loaded
    and the engine accepts the candidate; every other request gets
    [404].  Only a [200] changes anything: the candidate is added to the
    peer connection of the stream. *)
Theorem post_ice_candidate_status
    (E : Engine) (st : State) (streamId : string) (candidate : option IceCandidate) :
  let resp := fst (post_ice_candidate E st streamId candidate) in
  let st' := snd (post_ice_candidate E st streamId candidate) in
  (status resp = 400 ↔ candidate = None) ∧
  (status resp = 200 ↔
     ∃ c info p, candidate = Some c ∧ activeStreams st !! streamId = Some info ∧
                 pc info = Some p ∧ this_wrtcAvailable st = true ∧
                 addIceCandidate_ok E p c = true ∧
                 st' = act [AAddIceCandidate p c] st) ∧
  (status resp ≠ 200 → (status resp = 400 ∨ status resp = 404) ∧ st' = st).
Proof.
  unfold post_ice_candidate, handleIceCandidate.
  destruct candidate as [c|]; cbn.
  2: { repeat split; try done; auto. by intros (c & ? & ? & [=] & _). }
  destruct (activeStreams st !! streamId) as [info|] eqn:Hlook; cbn.
  2: { repeat split; try done; auto. by intros (? & ? & ? & _ & [=] & _). }
  destruct (pc info) as [p|] eqn:Hp; cbn.
  2: { repeat split; try done; auto.
       intros (? & ? & ? & _ & [= <-] & Hp' & _). congruence. }
  destruct (this_wrtcAvailable st) eqn:Hav; cbn.
  2: { repeat split; try done; auto. by intros (? & ? & ? & _ & _ & _ & [=] & _). }
  destruct (addIceCandidate_ok E p c) eqn:Hok; cbn.
  - repeat split; try done.
    intros _. exists c, info, p. done.
  - repeat split; try done; auto.
    intros (? & ? & ? & [= <-] & [= <-] & Hp' & _ & Hok' & _). congruence.
Qed.

Lemma post_ice_candidate_status_witness :
  snd (post_ice_candidate engine_ok streaming "s2" (Some host1)) = streaming ∧
  status (fst (post_ice_candidate engine_ok streaming "s2" (Some host1))) = 404 ∧
  ∃ c info p,
    Some host1 = Some c ∧ activeStreams streaming !! "s1" = Some info ∧
    pc info = Some p ∧ this_wrtcAvailable streaming = true ∧
    addIceCandidate_ok engine_ok p c = true ∧
    snd (post_ice_candidate engine_ok streaming "s1" (Some host1))
      = act [AAddIceCandidate p c] streaming.
Proof.
  destruct (post_ice_candidate_status engine_ok streaming "s2" (Some host1))
    as (_ & _ & Hother).
  destruct Hother as [[H400|H404] Hsame]; [discriminate|discriminate|..].
  destruct (post_ice_candidate_status engine_ok streaming "s1" (Some host1))
    as (_ & [Hok _] & _).
  split; [exact Hsame|]. split; [exact H404|]. apply Hok. reflexivity.
Defined.

End ApiExtras.

(* ===================================================================== *)
(** * Properties of [getIceServers]                                       *)
(* ===================================================================== *)

Section IceConfigExtras.
Import IceConfig.

Lemma prefix_append p x : String.prefix p (String.append p x) = true.
Proof.
  induction p as [|a p IH]; [by destruct x|].
  change (String.append (String a p) x) with (String a (String.append p x)).
  cbn [String.prefix]. destruct (ascii_dec a a); done.
Qed.

Lemma drop_prefix_prefix p1 p2 s r :
  drop_prefix (String.append p1 p2) s = Some r → String.prefix p1 s = true.
Proof.
  revert s. induction p1 as [|a p1 IH]; intros s; [by destruct s|].
  change (String.append (String a p1) p2) with (String a (String.append p1 p2)).
  destruct s as [|b s]; [done|]. cbn [drop_prefix String.prefix].
  destruct (Ascii.eqb_spec a b) as [->|Hne]; [|done].
  destruct (ascii_dec b b); [apply IH|done].
Qed.

Lemma strip_scheme_bare url :
  String.prefix "turn:" url = false → String.prefix "turns:" url = false →
  strip_scheme url = url.
Proof.
  intros Hturn Hturns. unfold strip_scheme.
  destruct (drop_prefix "turn://" url) as [host|] eqn:H1.
  { apply (drop_prefix_prefix "turn:" "//") in H1. congruence. }
  destruct (drop_prefix "turns://" url) as [host|] eqn:H2; [|done].
  apply (drop_prefix_prefix "turns:" "//") in H2. congruence.
Qed.

Lemma split_comma_length s : 1 ≤ length (split_comma s).
Proof.
  induction s as [|c s IH]; cbn; [lia|].
  destruct (Ascii.eqb c ","); cbn; [lia|].
  destruct (split_comma s); cbn in *; lia.
Qed.

Lemma turn_entries_length url u c :
  1 ≤ length (turn_entries url u c) ≤ 2.
Proof. unfold turn_entries. destruct (_ || _); cbn; lia. Qed.

Lemma turn_entries_turn env url :
  Forall (turn_entry env) (turn_entries url (TURN_USERNAME env) (TURN_CREDENTIAL env)).
Proof.
  unfold turn_entries, turn_entry.
  destruct (String.prefix "turn:" url) eqn:H1; cbn [orb].
  { apply Forall_singleton. cbn. auto. }
  destruct (String.prefix "turns:" url) eqn:H2; cbn [orb].
  { apply Forall_singleton. cbn. auto. }
  apply Forall_cons. split; [|apply Forall_singleton];
    cbn [urls username credential];
    (split; [done|split; [done|left; apply (prefix_append "turn:")]]).
Qed.

Lemma flat_map_length_bounds {A B} (f : A → list B) (l : list A) :
  (∀ x, 1 ≤ length (f x) ≤ 2) →
  length l ≤ length (flat_map f l) ≤ 2 * length l.
Proof.
  intros Hf. induction l as [|x l IH]; cbn; [lia|].
  rewrite length_app. specialize (Hf x). lia.
Qed.

Lemma Forall_flat_map_all {A B} (P : B → Prop) (f : A → list B) (l : list A) :
  (∀ x, Forall P (f x)) → Forall P (flat_map f l).
Proof.
  intros Hf. induction l as [|x l IH]; cbn; [constructor|].
  apply Forall_app. split; [apply Hf|exact IH].
Qed.

(** X13.  The ICE server list is the two STUN servers and nothing else
    exactly when [TURN_SERVER_URL] is unset or empty, whatever the
    credential variables say.  Any other value, also one made of commas
    or blanks only, adds at least one TURN entry. *)
Theorem getIceServers_without_turn (trim : string → string) (env : Env) :
  getIceServers trim env = stun_servers ↔
  TURN_SERVER_URL env = None ∨ TURN_SERVER_URL env = Some "".
Proof.
  unfold getIceServers. split.
  - destruct (TURN_SERVER_URL env) as [[|a url]|] eqn:Hurl; [by right| |by left].
    cbn [Signaling.truthy String.eqb negb default]. intros Heq. exfalso.
    apply (f_equal length) in Heq. rewrite length_app in Heq.
    pose proof (split_comma_length (String a url)) as Hn.
    pose proof (flat_map_length_bounds
                  (fun url => turn_entries (trim url) (TURN_USERNAME env)
                                (TURN_CREDENTIAL env))
                  (split_comma (String a url))
                  (fun url => turn_entries_length _ _ _)) as [Hlow _].
    change (length stun_servers) with 2 in Heq. unfold id in Heq. lia.
  - intros [H|H]; rewrite H; cbn; reflexivity.
Qed.

Lemma getIceServers_without_turn_witness :
  getIceServers ascii_trim
    {| TURN_SERVER_URL := Some ""; TURN_USERNAME := Some "user";
       TURN_CREDENTIAL := Some "secret" |}
  = [{| urls := "stun:stun.l.google.com:19302"; username := None; credential := None |};
     {| urls := "stun:stun1.l.google.com:19302"; username := None;
        credential := None |}].
Proof.
  apply (getIceServers_without_turn ascii_trim). right. reflexivity.
Defined.

(** X14.  The ICE server list always starts with the two STUN servers.
    What follows are TURN entries only: each has a [urls] that begins
    with [turn:] or [turns:], and all carry the same credentials, those
    of the environment, with an empty user name or credential turned
    into [undefined].  A configured list of [n] comma-separated items
    ([n] is at least one) yields between [n] and [2n] TURN entries. *)
Theorem getIceServers_shape (trim : string → string) (env : Env) :
  ∃ turn,
    getIceServers trim env = stun_servers ++ turn ∧
    Forall (turn_entry env) turn ∧
    (Signaling.truthy (TURN_SERVER_URL env) = true →
       let n := length (split_comma (default "" (TURN_SERVER_URL env))) in
       1 ≤ n ∧ n ≤ length turn ≤ 2 * n).
Proof.
  unfold getIceServers.
  destruct (Signaling.truthy (TURN_SERVER_URL env)) eqn:Hurl.
  - eexists. split; [reflexivity|]. split.
    + apply Forall_flat_map_all. intros url. apply turn_entries_turn.
    + intros _. split; [apply split_comma_length|].
      apply flat_map_length_bounds. intros url. apply turn_entries_length.
  - exists []. split; [reflexivity|]. split; [constructor|done].
Qed.

Lemma getIceServers_shape_witness :
  ∃ turn,
    getIceServers ascii_trim
      {| TURN_SERVER_URL := Some "turn:a.example:3478, b.example:3478 ";
         TURN_USERNAME := Some "user"; TURN_CREDENTIAL := Some "" |}
      = stun_servers ++ turn ∧
    2 ≤ length turn ≤ 4.
Proof.
  destruct (getIceServers_shape ascii_trim
              {| TURN_SERVER_URL := Some "turn:a.example:3478, b.example:3478 ";
                 TURN_USERNAME := Some "user"; TURN_CREDENTIAL := Some "" |})
    as (turn & Heq & _ & Hlen).
  exists turn. split; [exact Heq|]. apply Hlen. reflexivity.
Defined.

(** X15.  One item of the list, after trimming: if it begins with
    [turn:] or [turns:] it becomes a single entry with that very URL;
    otherwise it becomes the two entries [turn:<item>?transport=udp] and
    [turn:<item>?transport=tcp], in this order, with the item taken as it
    is: the replacement of a leading [turn://] or [turns://] never finds
    anything to remove there. *)
Theorem turn_entries_by_scheme (url : string) (u c : option string) :
  (String.prefix "turn:" url = true ∨ String.prefix "turns:" url = true →
     turn_entries url u c
     = [{| urls := url; username := or_undefined u; credential := or_undefined c |}]) ∧
  (String.prefix "turn:" url = false ∧ String.prefix "turns:" url = false →
     turn_entries url u c
     = [{| urls := String.append "turn:" (String.append url "?transport=udp");
           username := or_undefined u; credential := or_undefined c |};
        {| urls := String.append "turn:" (String.append url "?transport=tcp");
           username := or_undefined u; credential := or_undefined c |}]).
Proof.
  unfold turn_entries. split.
  - intros [-> | ->]; [done|]. by rewrite orb_true_r.
  - intros [H1 H2]. rewrite H1, H2. cbn [orb].
    by rewrite strip_scheme_bare.
Qed.

Lemma turn_entries_by_scheme_witness :
  turn_entries "turns:relay.example:5349" (Some "user") (Some "secret")
  = [{| urls := "turns:relay.example:5349"; username := Some "user";
        credential := Some "secret" |}] ∧
  turn_entries "relay.example:3478" (Some "user") None
  = [{| urls := "turn:relay.example:3478?transport=udp"; username := Some "user";
        credential := None |};
     {| urls := "turn:relay.example:3478?transport=tcp"; username := Some "user";
        credential := None |}].
Proof.
  split.
  - apply (turn_entries_by_scheme "turns:relay.example:5349"). right. reflexivity.
  - apply (turn_entries_by_scheme "relay.example:3478"). split; reflexivity.
Defined.

(** An empty item, as after a trailing comma, is a bare host too. *)
Example getIceServers_trailing_comma :
  getIceServers ascii_trim
    {| TURN_SERVER_URL := Some "turn:a.example:3478,"; TURN_USERNAME := None;
       TURN_CREDENTIAL := None |}
  = stun_servers ++
    [{| urls := "turn:a.example:3478"; username := None; credential := None |};
     {| urls := "turn:?transport=udp"; username := None; credential := None |};
     {| urls := "turn:?transport=tcp"; username := None; credential := None |}].
Proof. vm_compute. reflexivity. Qed.

End IceConfigExtras.

(* ===================================================================== *)
(** * Further properties of the bridge                                    *)
(* ===================================================================== *)

Section BridgeMoreFacts.
Import Bridge BridgeInv.
Context (E : Engine).

(** ** What each handler leaves alone *)

Lemma cleanupStream_timers st streamId :
  ∃ new, timers (cleanupStream E st streamId) = timers st ++ new.
Proof.
  unfold cleanupStream. destruct (activeStreams st !! streamId) as [info|];
    [|exists []; by rewrite app_nil_r].
  case_handles info; cbn; unfold kill_with_escalation;
    try destruct (kill_outcome E _ SIGTERM); cbn;
    first [by eexists | exists []; by rewrite app_nil_r].
Qed.

Lemma handleOffer_threw_timers st streamId streamKey offer evs message st' :
  handleOffer E st streamId streamKey offer evs = Some (Threw message, st') →
  timers st' = timers st.
Proof.
  unfold handleOffer.
  set (st0 := if this_wrtcAvailable st then st else _).
  assert (Hst0 : timers st0 = timers st)
    by (subst st0; destruct (this_wrtcAvailable st); done).
  destruct (negb (this_wrtcAvailable st0)); [by intros [= _ <-]|].
  destruct (negb (construct_ok E)); [by intros [= _ <-]|].
  destruct (negb (setRemoteDescription_ok E offer)); [by intros [= _ <-]|].
  destruct (createAnswer E offer) as [ans|]; [|by intros [= _ <-]].
  destruct (negb (setLocalDescription_ok E ans)); [by intros [= _ <-]|].
  destruct (waitForIceGathering _ _ _) as [[t seen]|]; [|done].
  destruct (setupMediaProcessing _ _ _ _ _); [done|]. by intros [= _ <-].
Qed.

(** [pc.ontrack] on a registered stream: what it keeps of the session
    and of the rest of the state. *)
Lemma ontrack_frame st streamId p f track info :
  activeStreams st !! streamId = Some info →
  ∃ info',
    activeStreams (ontrack st streamId p f track)
      = <[streamId := info']> (activeStreams st) ∧
    pc info' = pc info ∧ iceCandidates info' = iceCandidates info ∧
    (trace (ontrack st streamId p f track) = trace st ∨
     trace (ontrack st streamId p f track)
       = trace st ++ [ACreateSDPForFFmpeg streamId p f]) ∧
    pcs (ontrack st streamId p f track) = pcs st ∧
    timers (ontrack st streamId p f track) = timers st.
Proof.
  intros Hlook. unfold ontrack. rewrite Hlook.
  destruct info as [pc0 key0 ice0 ans0 ff0 au0 vi0 sdp0].
  destruct (track_kind track), au0, vi0, sdp0; cbn;
    eexists; (split; [reflexivity|]); cbn; repeat split; auto.
Qed.

Lemma ontrack_absent st streamId p f track :
  activeStreams st !! streamId = None → ontrack st streamId p f track = st.
Proof. intros Hlook. unfold ontrack. by rewrite Hlook. Qed.

(** ** Sessions and their peer connections *)

Lemma session_invariant_ext st st' :
  activeStreams st' = activeStreams st → pcs st' = pcs st →
  session_invariant st → session_invariant st'.
Proof. unfold session_invariant. by intros -> ->. Qed.

Lemma session_invariant_grow st st' l :
  activeStreams st' = activeStreams st → pcs st' = pcs st ++ l →
  session_invariant st → session_invariant st'.
Proof.
  unfold session_invariant. intros -> -> Hinv s info Hlook.
  destruct (Hinv s info Hlook) as (p & o & Hp & Hi & Ho & Hs).
  exists p, o. repeat split; try done. by apply lookup_app_l_Some.
Qed.

Lemma session_invariant_update st p o o' :
  pcs st !! p = Some o → pc_streamId o' = pc_streamId o →
  session_invariant st →
  session_invariant (with_pcs (<[p := o']> (pcs st)) st).
Proof.
  intros Hp Hid Hinv s info Hlook. cbn in Hlook.
  destruct (Hinv s info Hlook) as (p1 & o1 & Hp1 & Hi1 & Ho1 & Hs1).
  destruct (decide (p = p1)) as [<-|Hne].
  - exists p, o'. repeat split; try done.
    + cbn. apply list_lookup_insert_eq. by eapply lookup_lt_Some.
    + congruence.
  - exists p1, o1. repeat split; try done. cbn. by rewrite list_lookup_insert_ne.
Qed.

Lemma session_invariant_cleanupStream st streamId :
  session_invariant st → session_invariant (cleanupStream E st streamId).
Proof.
  intros Hinv s info. rewrite cleanupStream_streams, cleanupStream_pcs.
  intros [_ Hlook]%lookup_delete_Some. by apply Hinv.
Qed.

Lemma session_invariant_step st ev st' :
  step E st ev = Some st' → session_invariant st → session_invariant st'.
Proof.
  intros Hstep Hinv.
  destruct ev as [s key offer sched|s c|s|p c|p cs|p track|t|f code|f|i]; cbn in Hstep.
  - destruct (handleOffer E st s key offer sched) as [[[ans gathered|message] st1]|] eqn:Hoffer;
      [| |done]; cbn in Hstep; injection Hstep as <-.
    + destruct (handleOffer_returned E _ _ _ _ _ _ _ _ Hoffer) as (Hs & _ & Hp & _).
      intros s' info. rewrite Hs, Hp.
      destruct (decide (s = s')) as [<-|Hne].
      * rewrite lookup_insert_eq. intros [= <-]. cbn.
        eexists _, _. split; [reflexivity|]. split; [reflexivity|]. split.
        -- by rewrite lookup_app_r, Nat.sub_diag.
        -- reflexivity.
      * rewrite lookup_insert_ne by done. intros Hlook.
        destruct (Hinv s' info Hlook) as (p1 & o1 & Hp1 & Hi1 & Ho1 & Hs1).
        exists p1, o1. repeat split; try done. by apply lookup_app_l_Some.
    + destruct (handleOffer_threw_natives E _ _ _ _ _ _ _ Hoffer) as (_ & Hp).
      pose proof (handleOffer_threw E _ _ _ _ _ _ _ Hoffer) as Hs.
      destruct Hp as [Hp | (o' & Hp & _)].
      * by eapply session_invariant_ext.
      * by eapply session_invariant_grow.
  - injection Hstep as <-. unfold handleIceCandidate.
    destruct (activeStreams st !! s) as [info|]; [|done].
    destruct (pc info) as [p|]; [|done].
    destruct (negb (this_wrtcAvailable st)); [done|].
    by destruct (addIceCandidate_ok E p c).
  - injection Hstep as <-. by apply session_invariant_cleanupStream.
  - injection Hstep as <-. destruct (pcs st !! p) as [o|] eqn:Hp; [|done].
    by eapply session_invariant_update.
  - injection Hstep as <-. destruct (pcs st !! p) as [o|] eqn:Hp; [|done].
    assert (Hupd : session_invariant
                     (with_pcs (<[p := set_pc_connectionState cs o]> (pcs st)) st))
      by (by eapply session_invariant_update).
    destruct cs; cbn; try done; by apply session_invariant_cleanupStream.
  - injection Hstep as <-. destruct (pcs st !! p) as [o|] eqn:Hp; [|done].
    destruct (pc_ontrack o) as [f|] eqn:Hf; [|done].
    destruct (activeStreams st !! pc_streamId o) as [info|] eqn:Hlook;
      [|by rewrite ontrack_absent].
    destruct (ontrack_frame st (pc_streamId o) p f track info Hlook)
      as (info' & Hs & Hpc & Hice & _ & Hpcs & _).
    intros s' info1. rewrite Hs, Hpcs.
    destruct (decide (pc_streamId o = s')) as [<-|Hne].
    + rewrite lookup_insert_eq. intros [= <-]. rewrite Hpc, Hice. by apply Hinv.
    + rewrite lookup_insert_ne by done. apply Hinv.
  - injection Hstep as <-. destruct (onended st !! t); [|done].
    by apply session_invariant_cleanupStream.
  - injection Hstep as <-. destruct (procs st !! f) as [s|]; [|done].
    unfold ffmpeg_on_close. destruct code as [c|]; [|done].
    destruct (c =? 0)%Z; [done|]. by apply session_invariant_cleanupStream.
  - injection Hstep as <-. destruct (procs st !! f) as [s|]; [|done].
    by apply session_invariant_cleanupStream.
  - injection Hstep as <-. destruct (timers st !! i) as [[f|]|]; try done.
    unfold escalate. by destruct (killed _ _ _).
Qed.

Lemma session_invariant_run evs : ∀ st st',
  run E st evs = Some st' → session_invariant st → session_invariant st'.
Proof.
  induction evs as [|ev evs IH]; intros st st' Hrun Hinv; cbn in Hrun.
  - by injection Hrun as <-.
  - destruct (step E st ev) as [st1|] eqn:Hstep; [|done].
    eapply IH; [exact Hrun|]. by eapply session_invariant_step.
Qed.

Lemma session_invariant_initial url : session_invariant (initial url).
Proof. by intros ? ? ?. Qed.

(** ** Escalation timers *)

Lemma killed_false tr f sig :
  killed E tr f = false → AKill f sig ∈ tr → kill_outcome E f sig ≠ KillSent.
Proof.
  intros Hk Hin Hsent. apply not_true_iff_false in Hk. apply Hk.
  unfold killed. apply existsb_exists. exists (AKill f sig).
  split; [by apply list_elem_of_In|]. by rewrite Nat.eqb_refl, Hsent.
Qed.

Lemma timer_invariant_grow st st' new l :
  timers st' = timers st ++ new → trace st' = trace st ++ l →
  (∀ f, Some f ∈ new → AKill f SIGTERM ∈ l) →
  (∀ f, AKill f SIGKILL ∉ l) →
  timer_invariant E st → timer_invariant E st'.
Proof.
  intros Ht Htr Hnew Hl [Htim Hkill]. split.
  - intros i f. rewrite Ht, Htr. intros Hlook. apply elem_of_app.
    apply lookup_app_Some in Hlook as [Hlook|[_ Hlook]].
    + left. by eapply Htim.
    + right. apply Hnew. by eapply list_elem_of_lookup_2.
  - intros f. rewrite Htr. intros [Hin|Hin]%elem_of_app; [by apply Hkill|].
    by apply Hl in Hin.
Qed.

Lemma timer_invariant_quiet st st' l :
  timers st' = timers st → trace st' = trace st ++ l →
  (∀ f, AKill f SIGKILL ∉ l) →
  timer_invariant E st → timer_invariant E st'.
Proof.
  intros Ht Htr Hl. apply (timer_invariant_grow st st' [] l); try done.
  - by rewrite app_nil_r.
  - intros f Hin. by apply elem_of_nil in Hin.
Qed.

Lemma cleanupStream_kills st streamId :
  ∃ new l,
    timers (cleanupStream E st streamId) = timers st ++ new ∧
    trace (cleanupStream E st streamId) = trace st ++ l ∧
    (∀ f, Some f ∈ new → AKill f SIGTERM ∈ l) ∧
    (∀ f, AKill f SIGKILL ∉ l).
Proof.
  unfold cleanupStream. destruct (activeStreams st !! streamId) as [info|].
  2: { exists [], []. rewrite !app_nil_r. repeat split; try done.
       - intros f Hin. by apply elem_of_nil in Hin.
       - intros f Hin. by apply elem_of_nil in Hin. }
  case_handles info; cbn; unfold kill_with_escalation;
    try destruct (kill_outcome E _ SIGTERM); cbn;
    rewrite <- ?app_assoc; cbn;
    (eexists _, _; split; [first [reflexivity | symmetry; apply app_nil_r]|];
     split; [reflexivity|]; split;
     [ intros f Hin; repeat (apply elem_of_cons in Hin as [Hin|Hin]);
       try (by apply elem_of_nil in Hin);
       injection Hin as ->; rewrite !elem_of_cons; auto
     | intros f Hin; repeat (apply elem_of_cons in Hin as [Hin|Hin]);
       try discriminate Hin; by apply elem_of_nil in Hin ]).
Qed.

Lemma timer_invariant_cleanupStream st streamId :
  timer_invariant E st → timer_invariant E (cleanupStream E st streamId).
Proof.
  destruct (cleanupStream_kills st streamId) as (new & l & Ht & Htr & Hnew & Hl).
  by apply (timer_invariant_grow st _ new l).
Qed.

Lemma not_kill_singleton a f :
  (∀ sig, a ≠ AKill f sig) → AKill f SIGKILL ∉ [a].
Proof. intros Ha Hin%list_elem_of_singleton. by eapply Ha. Qed.

Lemma timer_invariant_step st ev st' :
  step E st ev = Some st' → timer_invariant E st → timer_invariant E st'.
Proof.
  intros Hstep Hinv.
  destruct ev as [s key offer sched|s c|s|p c|p cs|p track|t|f code|f|i]; cbn in Hstep.
  - destruct (handleOffer E st s key offer sched) as [[[ans gathered|message] st1]|] eqn:Hoffer;
      [| |done]; cbn in Hstep; injection Hstep as <-.
    + destruct (handleOffer_returned E _ _ _ _ _ _ _ _ Hoffer)
        as (_ & Htr & _ & _ & _ & Ht).
      eapply timer_invariant_quiet; [exact Ht|exact Htr| |done].
      intros f Hin. repeat (apply elem_of_cons in Hin as [Hin|Hin]); try done.
      by apply elem_of_nil in Hin.
    + pose proof (handleOffer_threw_timers _ _ _ _ _ _ _ Hoffer) as Ht.
      destruct (handleOffer_threw_trace E _ _ _ _ _ _ _ Hoffer) as [Htr|Htr].
      * eapply (timer_invariant_quiet st st1 []); try done.
        -- by rewrite app_nil_r.
        -- intros f Hin. by apply elem_of_nil in Hin.
      * eapply timer_invariant_quiet; [exact Ht|exact Htr| |done].
        intros f. by apply not_kill_singleton.
  - injection Hstep as <-. unfold handleIceCandidate.
    destruct (activeStreams st !! s) as [info|]; [|done].
    destruct (pc info) as [p|]; [|done].
    destruct (negb (this_wrtcAvailable st)); [done|].
    destruct (addIceCandidate_ok E p c); [|done].
    eapply (timer_invariant_quiet st _ [AAddIceCandidate p c]); try done.
    intros f. by apply not_kill_singleton.
  - injection Hstep as <-. by apply timer_invariant_cleanupStream.
  - injection Hstep as <-. by destruct (pcs st !! p).
  - injection Hstep as <-. destruct (pcs st !! p) as [o|] eqn:Hp; [|done].
    destruct cs; cbn; try done.
    + eapply (timer_invariant_quiet st _ [AEmit "stream-connected" (pc_streamId o)]);
        try done.
      intros f. by apply not_kill_singleton.
    + by apply (timer_invariant_cleanupStream (with_pcs _ st)).
    + by apply (timer_invariant_cleanupStream (with_pcs _ st)).
    + by apply (timer_invariant_cleanupStream (with_pcs _ st)).
  - injection Hstep as <-. destruct (pcs st !! p) as [o|] eqn:Hp; [|done].
    destruct (pc_ontrack o) as [f|] eqn:Hf; [|done].
    destruct (activeStreams st !! pc_streamId o) as [info|] eqn:Hlook;
      [|by rewrite ontrack_absent].
    destruct (ontrack_frame st (pc_streamId o) p f track info Hlook)
      as (info' & _ & _ & _ & Htr & _ & Ht).
    destruct Htr as [Htr|Htr].
    + eapply (timer_invariant_quiet st _ []); try done.
      * by rewrite app_nil_r.
      * intros f' Hin. by apply elem_of_nil in Hin.
    + eapply timer_invariant_quiet; [exact Ht|exact Htr| |done].
      intros f'. by apply not_kill_singleton.
  - injection Hstep as <-. destruct (onended st !! t); [|done].
    by apply timer_invariant_cleanupStream.
  - injection Hstep as <-. destruct (procs st !! f) as [s|]; [|done].
    unfold ffmpeg_on_close. destruct code as [c|]; [|done].
    destruct (c =? 0)%Z; [done|]. by apply timer_invariant_cleanupStream.
  - injection Hstep as <-. destruct (procs st !! f) as [s|]; [|done].
    by apply timer_invariant_cleanupStream.
  - injection Hstep as <-. destruct (timers st !! i) as [[f|]|] eqn:Hi; try done.
    destruct Hinv as [Htim Hkill].
    assert (Hterm : AKill f SIGTERM ∈ trace st) by (by eapply Htim).
    assert (Hrest : ∀ j f', <[i := None]> (timers st) !! j = Some (Some f') →
                            AKill f' SIGTERM ∈ trace st).
    { intros j f'. destruct (decide (i = j)) as [<-|Hne].
      - rewrite list_lookup_insert_eq by (by eapply lookup_lt_Some). done.
      - rewrite list_lookup_insert_ne by done. apply Htim. }
    unfold escalate.
    change (trace (with_timers (<[i:=None]> (timers st)) st)) with (trace st).
    destruct (killed E (trace st) f) eqn:Hk.
    + split; [exact Hrest|exact Hkill].
    + split.
      * intros j f' Hj. apply elem_of_app. left. by eapply Hrest.
      * intros f' [Hin|Hin]%elem_of_app; [by apply Hkill|].
        apply list_elem_of_singleton in Hin. injection Hin as ->.
        by eapply killed_false.
Qed.

Lemma timer_invariant_run evs : ∀ st st',
  run E st evs = Some st' → timer_invariant E st → timer_invariant E st'.
Proof.
  induction evs as [|ev evs IH]; intros st st' Hrun Hinv; cbn in Hrun.
  - by injection Hrun as <-.
  - destruct (step E st ev) as [st1|] eqn:Hstep; [|done].
    eapply IH; [exact Hrun|]. by eapply timer_invariant_step.
Qed.

Lemma timer_invariant_initial url : timer_invariant E (initial url).
Proof.
  split.
  - intros i f Hi. cbn in Hi. by destruct i.
  - intros f Hin. by apply elem_of_nil in Hin.
Qed.

(** ** Teardowns and their notifications *)

Lemma silent_count (p : Action → bool) (l : list Action) :
  (∀ a, silent_action a = true → p a = false) →
  silent l → length (List.filter p l) = 0.
Proof.
  intros Hp. unfold silent. induction l as [|a l IH]; cbn; [done|].
  intros [Ha Hl]%andb_prop. rewrite (Hp a Ha). auto.
Qed.

Lemma silent_teardowns s l : silent l → teardowns s l = 0.
Proof. apply silent_count. by intros []. Qed.

Lemma silent_registrations s l : silent l → registrations s l = 0.
Proof. apply silent_count. by intros []. Qed.

Lemma silent_cleaned_notices s l : silent l → cleaned_notices s l = 0.
Proof.
  apply silent_count. intros []; try done. cbn.
  intros Hne%negb_true_iff. by rewrite Hne.
Qed.

Lemma silent_release info : silent (release E info).
Proof.
  unfold silent, release.
  case_handles info; cbn; try reflexivity;
    destruct (kill_outcome E _ SIGTERM); reflexivity.
Qed.

Lemma teardown_silent m tr l :
  silent l → teardown_invariant m tr → teardown_invariant m (tr ++ l).
Proof.
  intros Hl Hinv s. destruct (Hinv s) as [Heq Hle].
  unfold cleaned_notices, teardowns, registrations in *. rewrite !count_app.
  fold (cleaned_notices s l) (teardowns s l) (registrations s l).
  rewrite silent_cleaned_notices, silent_teardowns, silent_registrations by done.
  lia.
Qed.

Lemma teardown_register m tr s x p f url :
  teardown_invariant m tr →
  teardown_invariant (<[s := x]> m)
    (tr ++ [ANewPeerConnection p; ASpawn f url; ARegister s]).
Proof.
  intros Hinv s'. destruct (Hinv s') as [Heq Hle].
  unfold cleaned_notices, teardowns, registrations, present in *.
  rewrite !count_app. cbn.
  destruct (decide (s = s')) as [->|Hne].
  - rewrite lookup_insert_eq, bool_decide_eq_true_2 by done. cbn.
    destruct (m !! s'); lia.
  - rewrite lookup_insert_ne, bool_decide_eq_false_2 by congruence. cbn. lia.
Qed.

Lemma teardown_cleanup m tr s info :
  m !! s = Some info →
  teardown_invariant m tr →
  teardown_invariant (delete s m)
    (tr ++ release E info ++ [AUnregister s; AEmit "stream-cleaned" s]).
Proof.
  intros Hlook Hinv s'. destruct (Hinv s') as [Heq Hle].
  pose proof (silent_release info) as Hrel.
  unfold cleaned_notices, teardowns, registrations, present in *.
  rewrite !count_app.
  fold (cleaned_notices s' (release E info)) (teardowns s' (release E info))
       (registrations s' (release E info)).
  rewrite silent_cleaned_notices, silent_teardowns, silent_registrations by done.
  cbn. destruct (decide (s = s')) as [->|Hne].
  - rewrite lookup_delete_eq, !(bool_decide_eq_true_2 (s' = s')) by done. cbn.
    rewrite Hlook in Hle. cbn in *.
    rewrite (bool_decide_eq_true_2 ("stream-cleaned" = "stream-cleaned")) by done.
    cbn. lia.
  - rewrite lookup_delete_ne, !(bool_decide_eq_false_2 (s = s')) by congruence.
    rewrite ?andb_false_r. cbn. lia.
Qed.

Lemma teardown_update m tr s info info' :
  m !! s = Some info →
  teardown_invariant m tr → teardown_invariant (<[s := info']> m) tr.
Proof.
  intros Hlook Hinv s'. destruct (Hinv s') as [Heq Hle]. split; [done|].
  unfold present in *. destruct (decide (s = s')) as [->|Hne].
  - rewrite lookup_insert_eq. by rewrite Hlook in Hle.
  - by rewrite lookup_insert_ne.
Qed.

Lemma teardown_cleanupStream st streamId :
  teardown_invariant (activeStreams st) (trace st) →
  teardown_invariant (activeStreams (cleanupStream E st streamId))
    (trace (cleanupStream E st streamId)).
Proof.
  intros Hinv. destruct (activeStreams st !! streamId) as [info|] eqn:Hlook.
  - rewrite cleanupStream_streams, (cleanupStream_trace E _ _ _ Hlook).
    by apply teardown_cleanup.
  - by rewrite cleanupStream_absent.
Qed.

Lemma teardown_step st ev st' :
  step E st ev = Some st' →
  teardown_invariant (activeStreams st) (trace st) →
  teardown_invariant (activeStreams st') (trace st').
Proof.
  intros Hstep Hinv.
  destruct ev as [s key offer sched|s c|s|p c|p cs|p track|t|f code|f|i]; cbn in Hstep.
  - destruct (handleOffer E st s key offer sched) as [[[ans gathered|message] st1]|] eqn:Hoffer;
      [| |done]; cbn in Hstep; injection Hstep as <-.
    + destruct (handleOffer_returned E _ _ _ _ _ _ _ _ Hoffer) as (-> & -> & _).
      by apply teardown_register.
    + rewrite (handleOffer_threw E _ _ _ _ _ _ _ Hoffer).
      destruct (handleOffer_threw_trace E _ _ _ _ _ _ _ Hoffer) as [-> | ->]; [done|].
      by apply teardown_silent.
  - injection Hstep as <-. unfold handleIceCandidate.
    destruct (activeStreams st !! s) as [info|]; [|done].
    destruct (pc info) as [p|]; [|done].
    destruct (negb (this_wrtcAvailable st)); [done|].
    destruct (addIceCandidate_ok E p c); [|done].
    by apply (teardown_silent _ _ [AAddIceCandidate p c]).
  - injection Hstep as <-. by apply teardown_cleanupStream.
  - injection Hstep as <-. by destruct (pcs st !! p).
  - injection Hstep as <-. destruct (pcs st !! p) as [o|]; [|done].
    destruct cs; cbn; try done.
    + by apply (teardown_silent _ _ [AEmit "stream-connected" (pc_streamId o)]).
    + by apply (teardown_cleanupStream (with_pcs _ st)).
    + by apply (teardown_cleanupStream (with_pcs _ st)).
    + by apply (teardown_cleanupStream (with_pcs _ st)).
  - injection Hstep as <-. destruct (pcs st !! p) as [o|]; [|done].
    destruct (pc_ontrack o) as [f|]; [|done].
    destruct (activeStreams st !! pc_streamId o) as [info|] eqn:Hlook;
      [|by rewrite ontrack_absent].
    destruct (ontrack_frame st (pc_streamId o) p f track info Hlook)
      as (info' & -> & _ & _ & Htr & _).
    destruct Htr as [-> | ->].
    + by eapply teardown_update.
    + apply (teardown_silent _ _ [ACreateSDPForFFmpeg _ _ _]); [done|].
      by eapply teardown_update.
  - injection Hstep as <-. destruct (onended st !! t); [|done].
    by apply teardown_cleanupStream.
  - injection Hstep as <-. destruct (procs st !! f) as [s|]; [|done].
    unfold ffmpeg_on_close. destruct code as [c|]; [|done].
    destruct (c =? 0)%Z; [done|]. by apply teardown_cleanupStream.
  - injection Hstep as <-. destruct (procs st !! f) as [s|]; [|done].
    by apply teardown_cleanupStream.
  - injection Hstep as <-. destruct (timers st !! i) as [[f|]|]; try done.
    unfold escalate. destruct (killed _ _ _); cbn; [done|].
    by apply (teardown_silent _ _ [AKill f SIGKILL]).
Qed.

Lemma teardown_run evs : ∀ st st',
  run E st evs = Some st' →
  teardown_invariant (activeStreams st) (trace st) →
  teardown_invariant (activeStreams st') (trace st').
Proof.
  induction evs as [|ev evs IH]; intros st st' Hrun Hinv; cbn in Hrun.
  - by injection Hrun as <-.
  - destruct (step E st ev) as [st1|] eqn:Hstep; [|done].
    eapply IH; [exact Hrun|]. by eapply teardown_step.
Qed.

Lemma teardown_initial url :
  teardown_invariant (activeStreams (initial url)) (trace (initial url)).
Proof. intros s. split; [done|]. cbn. unfold present. rewrite lookup_empty. lia. Qed.

(** ** A call of [handleOffer] that returns found the module loaded *)


(** ** Without the [wrtc] module *)

Lemma inert_step_total st ev :
  import_wrtc E = false → inert st → is_Some (step E st ev).
Proof.
  intros Himp (Hs & Ht & Hp & Hf & Ho & Hti & Hav).
  destruct ev; cbn; try by eexists.
  unfold handleOffer. rewrite Hav. cbn.
  unfold loadWrtc. rewrite Himp. cbn. by eexists.
Qed.

Lemma inert_step st ev st' :
  import_wrtc E = false → step E st ev = Some st' → inert st → inert st'.
Proof.
  intros Himp Hstep (Hs & Ht & Hp & Hf & Ho & Hti & Hav).
  destruct ev as [s key offer sched|s c|s|p c|p cs|p track|t|f code|f|i]; cbn in Hstep.
  - unfold handleOffer in Hstep. rewrite Hav in Hstep. cbn in Hstep.
    unfold loadWrtc in Hstep. rewrite Himp in Hstep. cbn in Hstep.
    injection Hstep as <-. by repeat split.
  - injection Hstep as <-. unfold handleIceCandidate. rewrite Hs, lookup_empty.
    by repeat split.
  - injection Hstep as <-. rewrite cleanupStream_absent by (by rewrite Hs, lookup_empty).
    by repeat split.
  - injection Hstep as <-. rewrite Hp. by repeat split.
  - injection Hstep as <-. rewrite Hp. by repeat split.
  - injection Hstep as <-. rewrite Hp. by repeat split.
  - injection Hstep as <-. rewrite Ho, lookup_empty. by repeat split.
  - injection Hstep as <-. rewrite Hf. by repeat split.
  - injection Hstep as <-. rewrite Hf. by repeat split.
  - injection Hstep as <-. rewrite Hti. by repeat split.
Qed.

Lemma inert_run evs : ∀ st st',
  import_wrtc E = false → run E st evs = Some st' → inert st → inert st'.
Proof.
  induction evs as [|ev evs IH]; intros st st' Himp Hrun Hinv; cbn in Hrun.
  - by injection Hrun as <-.
  - destruct (step E st ev) as [st1|] eqn:Hstep; [|done].
    eapply IH; [done|exact Hrun|]. by eapply inert_step.
Qed.

End BridgeMoreFacts.

(* ===================================================================== *)
(** * The bridge over whole runs                                          *)
(* ===================================================================== *)

Section BridgeExtras.
Import Bridge BridgeInv.

(** X16.  In a state that the bridge can reach, let [p] be the peer
    connection of the session registered under [streamId].  When [p]
    reports [failed], [disconnected] or [closed], the session is torn
    down: its resources are released, it is unregistered and
    ["stream-cleaned"] is emitted.  On any other state the session stays
    registered, the status of the stream shows the new state, and
    ["stream-connected"] is emitted for [connected] and nothing
    otherwise. *)
Theorem connection_state_change_effect
    (E : Engine) (url : string) (evs : list Event) (st : State)
    (streamId : string) (info : StreamInfo) (p : nat) (cs : ConnectionState) :
  run E (initial url) evs = Some st →
  activeStreams st !! streamId = Some info →
  pc info = Some p →
  ∃ st', step E st (OnConnectionStateChange p cs) = Some st' ∧
    (terminal cs = true →
       activeStreams st' = delete streamId (activeStreams st) ∧
       trace st' = trace st ++ release E info ++
                   [AUnregister streamId; AEmit "stream-cleaned" streamId]) ∧
    (terminal cs = false →
       activeStreams st' = activeStreams st ∧
       trace st' = trace st ++ match cs with
                               | CsConnected => [AEmit "stream-connected" streamId]
                               | _ => []
                               end ∧
       status_connectionState <$> getStreamInfo E st' streamId = Some (Some cs)).
Proof.
  intros Hrun Hlook Hpc.
  destruct (session_invariant_run E evs _ _ Hrun (session_invariant_initial url)
              _ _ Hlook) as (p' & o & Hpc' & _ & Hpcs & Hsid).
  assert (p' = p) as -> by congruence.
  pose proof (lookup_lt_Some _ _ _ Hpcs) as Hlt.
  cbn. rewrite Hpcs, Hsid. eexists; split; [reflexivity|]. split; intros Hterm.
  - destruct cs; try discriminate; cbn;
      by rewrite cleanupStream_streams, (cleanupStream_trace E _ _ info).
  - assert (Hstatus : ∀ st1, activeStreams st1 = activeStreams st →
              pcs st1 = <[p := set_pc_connectionState cs o]> (pcs st) →
              status_connectionState <$> getStreamInfo E st1 streamId = Some (Some cs)).
    { intros st1 Hs1 Hp1. unfold getStreamInfo. rewrite Hs1, Hlook. cbn.
      rewrite Hpc. cbn. rewrite Hp1, list_lookup_insert_eq by done. done. }
    destruct cs; try discriminate; cbn; rewrite ?app_nil_r;
      (split; [done|split; [done|by apply Hstatus]]).
Qed.

Lemma connection_state_change_effect_witness :
  ∃ st', step engine_ok streaming (OnConnectionStateChange 0 CsFailed) = Some st' ∧
         activeStreams st' = delete "s1" (activeStreams streaming) ∧
         trace st' = trace streaming ++
                     [APcClose 0; AKill 0 SIGTERM; ASetTimeout 5000%N 0;
                      ATrackStop 1; ATrackStop 2;
                      AUnregister "s1"; AEmit "stream-cleaned" "s1"].
Proof.
  destruct (connection_state_change_effect engine_ok default_muxRtmpUrl
              [CallHandleOffer "s1" "key123" offer1 [Elapse 5000%N];
               OnTrack 0 audio1; OnTrack 0 video2]
              streaming "s1"
              {| pc := Some 0; streamKey := "key123"; iceCandidates := 0;
                 answer := {| sd_type := "answer"; sd_sdp := "v=0" |};
                 ffmpeg := Some 0; audioTrack := Some 1; videoTrack := Some 2;
                 sdpCreated := true |}
              0 CsFailed)
    as (st' & Hstep & Hterm & _).
  - vm_compute. reflexivity.
  - vm_compute. reflexivity.
  - reflexivity.
  - exists st'. split; [exact Hstep|]. apply Hterm. reflexivity.
Defined.

(** X17.  In a state that the bridge can reach, a candidate that the peer
    connection of a registered session reports after [handleOffer] has
    returned is appended to the candidates that [getIceCandidates] gives
    for that session; the end-of-candidates event ([null]) adds nothing,
    and neither does an event of another peer connection.  Nothing else
    changes. *)
Theorem late_candidates_reach_session
    (E : Engine) (url : string) (evs : list Event) (st : State)
    (streamId : string) (info : StreamInfo) (p : nat) :
  run E (initial url) evs = Some st →
  activeStreams st !! streamId = Some info →
  pc info = Some p →
  ∀ q c, ∃ st', step E st (OnIceCandidate q c) = Some st' ∧
    activeStreams st' = activeStreams st ∧ trace st' = trace st ∧
    getIceCandidates st' streamId =
      getIceCandidates st streamId ++
      match c with
      | Some x => if bool_decide (q = p) then [x] else []
      | None => []
      end.
Proof.
  intros Hrun Hlook Hpc q c.
  destruct (session_invariant_run E evs _ _ Hrun (session_invariant_initial url)
              _ _ Hlook) as (p' & o & Hpc' & Hice & Hpcs & _).
  assert (p' = p) as -> by congruence.
  pose proof (lookup_lt_Some _ _ _ Hpcs) as Hlt.
  cbn. destruct (pcs st !! q) as [oq|] eqn:Hq.
  - eexists; split; [reflexivity|]. split; [done|]. split; [done|].
    unfold getIceCandidates. cbn. rewrite Hlook, Hice, Hpcs.
    destruct (decide (q = p)) as [->|Hne].
    + rewrite list_lookup_insert_eq by done. cbn.
      rewrite Hpcs in Hq. injection Hq as <-.
      rewrite bool_decide_eq_true_2 by done. destruct c; cbn; by rewrite ?app_nil_r.
    + rewrite list_lookup_insert_ne, Hpcs by done.
      rewrite bool_decide_eq_false_2 by done. destruct c; by rewrite app_nil_r.
  - eexists; split; [reflexivity|]. split; [done|]. split; [done|].
    assert (q ≠ p) by (intros ->; congruence).
    rewrite bool_decide_eq_false_2 by done. destruct c; by rewrite app_nil_r.
Qed.

Lemma late_candidates_reach_session_witness :
  ∃ st', step engine_ok negotiated (OnIceCandidate 0 (Some host1)) = Some st' ∧
         getIceCandidates st' "s1" = getIceCandidates negotiated "s1" ++ [host1].
Proof.
  destruct (late_candidates_reach_session engine_ok default_muxRtmpUrl
              [CallHandleOffer "s1" "key123" offer1 [Elapse 5000%N]]
              negotiated "s1"
              (fresh_session 0 "key123" {| sd_type := "answer"; sd_sdp := "v=0" |})
              0)
    with (q := 0) (c := Some host1)
    as (st' & Hstep & _ & _ & Hcands).
  - vm_compute. reflexivity.
  - vm_compute. reflexivity.
  - reflexivity.
  - exists st'. split; [exact Hstep | exact Hcands].
Defined.

(** X18.  The escalation of [cleanupStream] never fires for a process
    that SIGTERM could be sent to: in no state that the bridge can reach
    has SIGKILL been sent to such a process, whatever the process did
    with the SIGTERM. *)
Theorem sigkill_never_follows_delivered_sigterm
    (E : Engine) (url : string) (evs : list Event) (st : State) (f : nat) :
  run E (initial url) evs = Some st →
  kill_outcome E f SIGTERM = KillSent →
  AKill f SIGKILL ∉ trace st.
Proof.
  intros Hrun Hsent Hin.
  destruct (timer_invariant_run E evs _ _ Hrun (timer_invariant_initial E url))
    as [_ Hkill].
  by apply (Hkill f).
Qed.

Lemma sigkill_never_follows_delivered_sigterm_witness :
  AKill 0 SIGKILL ∉ trace torn_down.
Proof.
  apply (sigkill_never_follows_delivered_sigterm engine_ok default_muxRtmpUrl
           life_of_s1 torn_down 0).
  - vm_compute. reflexivity.
  - reflexivity.
Defined.

(** The same life with the timer expired, and with an engine that cannot
    deliver SIGTERM: only then is SIGKILL sent. *)
Example escalation_timer_expiry :
  (drop 10 ∘ trace) <$> run engine_ok (initial default_muxRtmpUrl) life_of_s1
    = Some [AEmit "stream-cleaned" "s1"] ∧
  (drop 10 ∘ trace) <$> run engine_sigterm_fails (initial default_muxRtmpUrl) life_of_s1
    = Some [AEmit "stream-cleaned" "s1"; AKill 0 SIGKILL].
Proof. split; vm_compute; reflexivity. Qed.

(** X19.  In every state that the bridge can reach and for every
    [streamId]: ["stream-cleaned"] has been emitted for it exactly as
    often as a session was removed from the registry under it, and that
    is at most as often as a session was registered under it, strictly
    less while one is registered. *)
Theorem teardowns_are_notified
    (E : Engine) (url : string) (evs : list Event) (st : State) (streamId : string) :
  run E (initial url) evs = Some st →
  cleaned_notices streamId (trace st) = teardowns streamId (trace st) ∧
  teardowns streamId (trace st) + present (activeStreams st) streamId
    ≤ registrations streamId (trace st).
Proof.
  intros Hrun.
  exact (teardown_run E evs _ _ Hrun (teardown_initial url) streamId).
Qed.

Lemma teardowns_are_notified_witness :
  cleaned_notices "s1" (trace torn_down) = teardowns "s1" (trace torn_down) ∧
  teardowns "s1" (trace torn_down) + present (activeStreams torn_down) "s1"
    ≤ registrations "s1" (trace torn_down).
Proof.
  apply (teardowns_are_notified engine_ok default_muxRtmpUrl life_of_s1 torn_down "s1").
  vm_compute. reflexivity.
Defined.



(** X21.  A session that is torn down before any of its tracks has
    arrived leaves its pipeline process alone: after a returning
    [handleOffer], [cleanupStream] closes the peer connection,
    unregisters the session and emits ["stream-cleaned"], but sends no
    signal to the process that the offer spawned and schedules no
    timer. *)
Theorem cleanup_before_first_track
    (E : Engine) (st : State) (streamId streamKey : string)
    (offer : SessionDescription) (evs : list LoopEvent)
    (answer : SessionDescription) (gathered : list IceCandidate) (st' : State) :
  handleOffer E st streamId streamKey offer evs = Some (Returned answer gathered, st') →
  trace (cleanupStream E st' streamId) =
    trace st ++ [ANewPeerConnection (length (pcs st));
                 ASpawn (length (procs st))
                   (String.append (muxRtmpUrl st) (String.append "/" streamKey));
                 ARegister streamId;
                 APcClose (length (pcs st));
                 AUnregister streamId;
                 AEmit "stream-cleaned" streamId] ∧
  timers (cleanupStream E st' streamId) = timers st ∧
  activeStreams (cleanupStream E st' streamId) = delete streamId (activeStreams st).
Proof.
  intros Hoffer.
  destruct (handleOffer_returned E _ _ _ _ _ _ _ _ Hoffer)
    as (Hs & Ht & _ & _ & _ & Hti).
  assert (Hlook : activeStreams st' !! streamId =
                  Some (fresh_session (length (pcs st)) streamKey answer))
    by (by rewrite Hs, lookup_insert_eq).
  split; [|split].
  - rewrite (cleanupStream_trace E _ _ _ Hlook), Ht, <- app_assoc. reflexivity.
  - rewrite <- Hti. unfold cleanupStream. by rewrite Hlook.
  - by rewrite cleanupStream_streams, Hs, delete_insert_eq.
Qed.

Lemma cleanup_before_first_track_witness :
  trace (cleanupStream engine_ok negotiated "s1") =
    [ANewPeerConnection 0;
     ASpawn 0 "rtmp://global-live.mux.com:5222/app/key123";
     ARegister "s1"; APcClose 0; AUnregister "s1"; AEmit "stream-cleaned" "s1"] ∧
  timers (cleanupStream engine_ok negotiated "s1") = [].
Proof.
  destruct (cleanup_before_first_track engine_ok (initial default_muxRtmpUrl)
              "s1" "key123" offer1 [Elapse 5000%N]
              {| sd_type := "answer"; sd_sdp := "v=0" |} [] negotiated)
    as (Htrace & Htimers & _).
  - vm_compute. reflexivity.
  - split; [exact Htrace | exact Htimers].
Defined.

(** X22.  Where the [wrtc] module cannot be imported the bridge never
    does anything: whatever is called and whatever fires, every call
    ends (no [handleOffer] gets as far as the ICE wait), no peer
    connection or process is created, nothing is registered and nothing
    is emitted; and every [handleOffer] throws the "not available"
    error. *)
Theorem bridge_without_wrtc_is_inert
    (E : Engine) (url : string) (evs : list Event) :
  import_wrtc E = false →
  ∃ st, run E (initial url) evs = Some st ∧
        activeStreams st = ∅ ∧ trace st = [] ∧ pcs st = [] ∧ procs st = [] ∧
        ∀ streamId streamKey offer sched,
          fst <$> handleOffer E st streamId streamKey offer sched
          = Some (Threw not_available).
Proof.
  intros Himp.
  assert (Hgen : ∀ st, inert st → ∃ st', run E st evs = Some st' ∧ inert st').
  { induction evs as [|ev evs' IH]; intros st Hinv; cbn.
    - by exists st.
    - destruct (inert_step_total E st ev Himp Hinv) as [st1 Hstep].
      rewrite Hstep. apply IH. by eapply inert_step. }
  destruct (Hgen (initial url)) as (st & Hrun & Hs & Ht & Hp & Hf & _ & _ & Hav).
  { by repeat split. }
  exists st. repeat (split; [done|]).
  intros streamId streamKey offer sched.
  unfold handleOffer. rewrite Hav. cbn. unfold loadWrtc. by rewrite Himp.
Qed.

Lemma bridge_without_wrtc_is_inert_witness :
  ∃ st, run engine_no_wrtc (initial default_muxRtmpUrl)
          [CallHandleOffer "s1" "key123" offer1 []; CallCleanupStream "s1"] = Some st ∧
        activeStreams st = ∅ ∧ trace st = [].
Proof.
  destruct (bridge_without_wrtc_is_inert engine_no_wrtc default_muxRtmpUrl
              [CallHandleOffer "s1" "key123" offer1 []; CallCleanupStream "s1"])
    as (st & Hrun & Hs & Ht & _).
  - reflexivity.
  - exists st. by repeat split.
Defined.

End BridgeExtras.
